(** * gen_patrix.py: the tile-drop simulation

    A shallow embedding of [src/gen_patrix.py].  Python integers are [Z],
    Python floats are binary64 [float]s, lists are [list]s.  The script
    mutates one shared [PIL.Image] object (the canvas) and keeps copies of
    it; those objects live in a heap of images addressed by references, so
    that aliasing between the live canvas and its snapshots is visible.
    The global [random] generator, the module logger and the output file
    are fields of the program state.  A raised exception leaves the state
    as it is at the raise. *)

From Stdlib Require Import ZArith Lia List String PrimFloat Sorted.
From stdpp Require Import base tactics option list numbers pretty.

Set Warnings "-inexact-float".
Local Open Scope Z_scope.

(** ** Exceptions and the state-and-exception monad *)

(** The exceptions the modelled code can raise.  Each carries the line of
    [gen_patrix.py] of the innermost frame of this file at the raise. *)
Inductive exn : Type :=
| IndexError (lineno : nat)
| ValueError (lineno : nat)
| TypeError (lineno : nat)
| AttributeError (lineno : nat)
| OSError (lineno : nat)
| FileExistsError (lineno : nat)
| OverflowError (lineno : nat)
| SystemExit (code : nat).

Inductive res (A : Type) : Type :=
| Ok (a : A)
| Raise (e : exn).
Arguments Ok {A} a.
Arguments Raise {A} e.

(** ** External collaborators *)

(** The part of Pillow the script uses.  [im_paste c s box] is the content of
    [c] after [c.paste(s, box=box)]; [im_new] is [Image.new('RGB', _)] at a
    size Pillow accepts.  Pasting never resizes the destination.

    [ImageEnhance.Brightness(s).enhance(f)] blends [s] with a black image of
    its mode, and [Image.blend] refuses some modes: it raises [ValueError]
    for a palette image, which is what [Image.open] gives for an indexed
    PNG.  [im_blendable s] tells whether the mode of [s] is accepted, and
    [im_enhance s f] is the enhanced image when it is.

    [im_save first rest d] is
    [first.save(path, save_all=True, append_images=rest, loop=0, duration=d)]:
    what the call returns or raises, and the frames, each with its duration,
    that the file holds afterwards.  The GIF writer is free to merge frames
    (Pillow merges identical consecutive frames and adds their durations up)
    and to fail after the file was opened for writing. *)
Class Pillow (Image : Type) : Type := {
  im_size : Image -> Z * Z;
  im_new : Z * Z -> Image;
  im_paste : Image -> Image -> Z * Z -> Image;
  im_blendable : Image -> bool;
  im_enhance : Image -> float -> Image;
  im_save : Image -> list Image -> Z -> res unit * list (Image * Z);
  im_size_new : forall w h, 0 <= w -> 0 <= h -> im_size (im_new (w, h)) = (w, h);
  im_size_paste : forall c s box, im_size (im_paste c s box) = im_size c
}.

(** The generator behind the [random] module.  [randbelow n] is
    [Random._randbelow(n)] and [randfloor n] is [floor(random() * n)]; both
    return the draw and the next generator state. *)
Class Random (G : Type) : Type := {
  randbelow : nat -> G -> nat * G;
  randfloor : nat -> G -> nat * G;
  randbelow_lt : forall n g, (0 < n)%nat -> (fst (randbelow n g) < n)%nat;
  randfloor_lt : forall n g, (0 < n)%nat -> (fst (randfloor n g) < n)%nat
}.

(** ** Python built-ins *)

(** [list(range(start, stop, step))]; [None] is the [ValueError] for a zero
    step. *)
Definition py_range (start stop step : Z) : option (list Z) :=
  if step =? 0 then None
  else
    let len :=
      if 0 <? step then (stop - start + step - 1) / step
      else (start - stop - step - 1) / (- step) in
    Some (map (fun i => start + Z.of_nat i * step) (seq 0 (Z.to_nat len))).

(** [collections.deque(maxlen=...)], leftmost item first. *)
Module deque.
Record t (A : Type) : Type := mk { maxlen : nat; items : list A }.
Arguments mk {A} maxlen items.
Arguments maxlen {A} _.
Arguments items {A} _.

Definition new {A} (maxlen : nat) : t A := mk maxlen [].

Definition clear {A} (d : t A) : t A := mk (maxlen d) [].

(** The item is added on the left; a deque that is then longer than
    [maxlen] drops its rightmost item. *)
Definition appendleft {A} (x : A) (d : t A) : t A :=
  let l := x :: items d in
  mk (maxlen d) (if (maxlen d <? length l)%nat then removelast l else l).

Definition len {A} (d : t A) : nat := length (items d).

(** What the constructor establishes and every method keeps. *)
Definition bounded {A} (d : t A) : Prop := (len d <= maxlen d)%nat.
End deque.

Definition brightness_curve : list float := [1.0; 0.8; 0.6; 0.4; 0.2]%float.

(** ** Program state *)

(** A record handed to the module logger and let through by its level. *)
Record LogRecord : Type := mkLogRecord {
  levelno : Z;
  msg : string;
  exc_info : option exn
}.

Definition DEBUG : Z := 10.
Definition INFO : Z := 20.
Definition ERROR : Z := 40.

(** The parsed command line ([argparse.Namespace]). *)
Record Args : Type := mkArgs {
  imagedir : string;
  outdir : string;
  duration : Z;
  numupdators : Z;
  prefill : bool;
  numframes : Z;
  colsep : Z;
  rowsep : Z;
  width : Z;
  height : Z;
  logconf : option string;
  verbose : Z
}.

(** ** A small instance of the collaborators

    Rasters of grey levels with clipping paste, some of them palette images
    that the enhancer refuses, a GIF writer that merges identical
    consecutive frames and refuses durations of 655360 ms and more, and a
    linear congruential generator: enough to run the model on concrete
    configurations. *)

Record Raster : Type := mkRaster {
  r_size : Z * Z;
  r_rows : list (list float);
  r_palette : bool
}.

Definition raster_new (size : Z * Z) : Raster :=
  mkRaster size
    (replicate (Z.to_nat (snd size)) (replicate (Z.to_nat (fst size)) 0%float))
    false.

Definition raster_get (s : Raster) (i j : Z) : option float :=
  if (0 <=? i) && (0 <=? j)
  then r_rows s !! Z.to_nat j ≫= fun row => row !! Z.to_nat i
  else None.

(** The destination pixel [(i, j)] takes the source pixel [(i - x, j - y)]
    where the source has one; the rest of the source is clipped. *)
Definition raster_paste (c s : Raster) (box : Z * Z) : Raster :=
  mkRaster (r_size c)
    (imap (fun j row =>
       imap (fun i old =>
         default old (raster_get s (Z.of_nat i - fst box) (Z.of_nat j - snd box)))
         row)
       (r_rows c))
    (r_palette c).

Definition raster_enhance (s : Raster) (f : float) : Raster :=
  mkRaster (r_size s) (map (map (fun p => PrimFloat.mul p f)) (r_rows s))
    (r_palette s).

Fixpoint list_eqb {A} (eqb : A -> A -> bool) (l1 l2 : list A) : bool :=
  match l1, l2 with
  | [], [] => true
  | x :: l1', y :: l2' => eqb x y && list_eqb eqb l1' l2'
  | _, _ => false
  end.

Definition raster_eqb (a b : Raster) : bool :=
  (fst (r_size a) =? fst (r_size b)) && (snd (r_size a) =? snd (r_size b))
  && Bool.eqb (r_palette a) (r_palette b)
  && list_eqb (list_eqb PrimFloat.eqb) (r_rows a) (r_rows b).

(** The frames as the file holds them: a frame identical to the one after
    it is merged with it, the durations added. *)
Definition merge_frames (frames : list Raster) (d : Z) : list (Raster * Z) :=
  fold_right
    (fun f acc =>
       match acc with
       | (g, dg) :: acc' =>
           if raster_eqb f g then (f, d + dg) :: acc' else (f, d) :: acc
       | [] => [(f, d)]
       end)
    [] frames.

Definition raster_save (first : Raster) (rest : list Raster) (d : Z)
  : res unit * list (Raster * Z) :=
  if 655360 <=? d then (Raise (OverflowError 241), [])
  else (Ok tt, merge_frames (first :: rest) d).

#[export] Instance raster_pillow : Pillow Raster := {|
  im_size := r_size;
  im_new := raster_new;
  im_paste := raster_paste;
  im_blendable := fun s => negb (r_palette s);
  im_enhance := raster_enhance;
  im_save := raster_save;
  im_size_new := fun w h _ _ => eq_refl;
  im_size_paste := fun c s box => eq_refl
|}.

(** A one-colour tile, and a one-colour tile in palette mode. *)
Definition flat_tile (w h : Z) (grey : float) : Raster :=
  mkRaster (w, h) (replicate (Z.to_nat h) (replicate (Z.to_nat w) grey)) false.


Definition lcg_next (g : Z) : Z := (g * 1103515245 + 12345) mod 2147483648.

Definition lcg_below (n : nat) (g : Z) : nat * Z :=
  (Z.to_nat ((g / 65536) mod Z.of_nat n), lcg_next g).

Lemma lcg_below_lt (n : nat) (g : Z) :
  (0 < n)%nat -> (fst (lcg_below n g) < n)%nat.
Proof.
  intros Hn. unfold lcg_below. simpl.
  pose proof (Z.mod_pos_bound (g / 65536) (Z.of_nat n)). lia.
Qed.

#[export] Instance lcg_random : Random Z := {|
  randbelow := lcg_below;
  randfloor := lcg_below;
  randbelow_lt := lcg_below_lt;
  randfloor_lt := lcg_below_lt
|}.

(** The same generator with a count of the draws made so far. *)
Definition counting_below (n : nat) (g : Z * nat) : nat * (Z * nat) :=
  (fst (lcg_below n (fst g)), (snd (lcg_below n (fst g)), S (snd g))).

Lemma counting_below_lt (n : nat) (g : Z * nat) :
  (0 < n)%nat -> (fst (counting_below n g) < n)%nat.
Proof. intros Hn. apply (lcg_below_lt n (fst g) Hn). Qed.

#[export] Instance lcg_counting : Random (Z * nat) := {|
  randbelow := counting_below;
  randfloor := counting_below;
  randbelow_lt := counting_below_lt;
  randfloor_lt := counting_below_lt
|}.

(** Four 16 by 16 tiles, and the configuration of the boundary scenario:
    a 64 by 64 canvas, no separation, one dropper, ten frames. *)
Definition tiles4 : list Raster :=
  [flat_tile 16 16 10; flat_tile 16 16 20; flat_tile 16 16 30; flat_tile 16 16 40]%float.

Definition args64 : Args :=
  {| imagedir := "tiles"; outdir := "out"; duration := 400; numupdators := 1;
     prefill := false; numframes := 10; colsep := 0; rowsep := 0;
     width := 64; height := 64; logconf := None; verbose := 0 |}.

(** Three 2 by 2 tiles and a small command line: an 8 by 24 canvas, a pitch
    of 3 in both directions, two droppers, four frames. *)
Definition tiles2 : list Raster :=
  [flat_tile 2 2 10; flat_tile 2 2 20; flat_tile 2 2 30]%float.

Definition args_small : Args :=
  {| imagedir := "tiles"; outdir := "out"; duration := 400; numupdators := 2;
     prefill := false; numframes := 4; colsep := 1; rowsep := 1;
     width := 8; height := 24; logconf := None; verbose := 0 |}.





(** The command line [args_small] with a column separation of -5: with the 2
    pixel tiles the column pitch is -3. *)
Definition args_negative_pitch : Args :=
  {| imagedir := "tiles"; outdir := "out"; duration := 400; numupdators := 2;
     prefill := false; numframes := 4; colsep := -5; rowsep := 1;
     width := 8; height := 24; logconf := None; verbose := 0 |}.


(** A reference to an image object of the heap. *)
Abbreviation ref := nat (only parsing).

Section Program.
Context {Image : Type} `{!Pillow Image} {G : Type} `{!Random G}.

(** [heap]: the mutable image objects (the canvas and its copies);
    [rng]: the state of the [random] module;
    [loglevel] and [log]: the level of the module logger and what it emitted;
    [outfile]: the frames [out.gif] holds, each with its duration, once
    [save] was called;
    [dirs]: the directories the run created. *)
Record State : Type := mkState {
  heap : list Image;
  rng : G;
  loglevel : Z;
  log : list LogRecord;
  outfile : option (list (Image * Z));
  dirs : list string
}.

Definition M (A : Type) : Type := State -> res A * State.

Definition ret {A} (a : A) : M A := fun s => (Ok a, s).

Definition raise {A} (e : exn) : M A := fun s => (Raise e, s).

Definition bind {A B} (m : M A) (k : A -> M B) : M B :=
  fun s =>
    match m s with
    | (Ok a, s') => k a s'
    | (Raise e, s') => (Raise e, s')
    end.

Notation "'let*' x ':=' m 'in' k" := (bind m (fun x => k))
  (at level 10, x pattern, m at level 100, k at level 200).

(** [for x in l: body(x)] with the loop-carried locals as accumulator. *)
Fixpoint for_acc {A S} (l : list A) (acc : S) (body : A -> S -> M S) : M S :=
  match l with
  | [] => ret acc
  | x :: l' => let* acc' := body x acc in for_acc l' acc' body
  end.

(** [for x in l: x.method()] on a list of objects nothing else refers to. *)
Fixpoint for_each {A} (l : list A) (method : A -> M A) : M (list A) :=
  match l with
  | [] => ret []
  | x :: l' =>
      let* x' := method x in
      let* l'' := for_each l' method in
      ret (x' :: l'')
  end.

Definition range (start stop step : Z) (lineno : nat) : M (list Z) :=
  match py_range start stop step with
  | Some l => ret l
  | None => raise (ValueError lineno)
  end.

(** *** The heap of images *)

Definition deref (h : list Image) (r : ref) : Image :=
  default (im_new (0, 0)) (h !! r).

Definition alloc (im : Image) : M ref :=
  fun s => (Ok (length (heap s)),
            mkState (heap s ++ [im]) (rng s) (loglevel s) (log s) (outfile s)
                    (dirs s)).

(** [Image.new('RGB', size)]; Pillow refuses a negative width or height. *)
Definition Image_new (size : Z * Z) (lineno : nat) : M ref :=
  if (fst size <? 0) || (snd size <? 0) then raise (ValueError lineno)
  else alloc (im_new size).

(** [img.copy()]: a new object with the pixels [img] has now. *)
Definition Image_copy (img : ref) : M ref :=
  fun s => alloc (deref (heap s) img) s.

(** [img.paste(src, box=box)]: the object [img] is changed in place. *)
Definition Image_paste (img : ref) (src : Image) (box : Z * Z) : M unit :=
  fun s => (Ok tt,
            mkState (<[img := im_paste (deref (heap s) img) src box]> (heap s))
                    (rng s) (loglevel s) (log s) (outfile s) (dirs s)).

(** [img.size] *)
Definition Image_size (img : ref) : M (Z * Z) :=
  fun s => (Ok (im_size (deref (heap s) img)), s).

(** *** The [random] module *)

Definition draw (f : G -> nat * G) : M nat :=
  fun s => let (i, g) := f (rng s) in
           (Ok i,
            mkState (heap s) g (loglevel s) (log s) (outfile s) (dirs s)).

Definition index {A} (l : list A) (i : nat) (lineno : nat) : M A :=
  match l !! i with
  | Some x => ret x
  | None => raise (IndexError lineno)
  end.

(** [random.choice(seq)] *)
Definition random_choice {A} (seq : list A) (lineno : nat) : M A :=
  match seq with
  | [] => raise (IndexError lineno)
  | _ => let* i := draw (randbelow (length seq)) in index seq i lineno
  end.

(** [random.choices(population, k=k)] *)
Fixpoint random_choices {A} (population : list A) (k : nat) (lineno : nat)
  : M (list A) :=
  match k with
  | O => ret []
  | S k' =>
      let* i := draw (randfloor (length population)) in
      let* x := index population i lineno in
      let* l := random_choices population k' lineno in
      ret (x :: l)
  end.

(** *** The module logger *)

Definition logger_log (level : Z) (m : string) (e : option exn) : M unit :=
  fun s =>
    (Ok tt,
     if loglevel s <=? level
     then mkState (heap s) (rng s) (loglevel s)
                  (log s ++ [mkLogRecord level m e]) (outfile s) (dirs s)
     else s).

Definition setLevel (level : Z) : M unit :=
  fun s =>
    (Ok tt, mkState (heap s) (rng s) level (log s) (outfile s) (dirs s)).

(** The script imports [logging] only: [logging.config] is never imported,
    so with [--logconf] the attribute lookup of line 91 raises
    [AttributeError] before any file is read. *)
Definition _setup_logging (theargs : Args) : M unit :=
  match logconf theargs with
  | None =>
      let level := 50 - 10 * verbose theargs in
      setLevel level
  | Some path => raise (AttributeError 91)
  end.


(** ** [class TileDropper] *)

Record TileDropper : Type := mkTileDropper {
  _colsep : Z;
  _rowsep : Z;
  _tile_list : list Image;
  _img : ref;
  _curloc : option (Z * Z);
  _thecols : list Z;
  _therows : list Z;
  _brightness : list float;
  _prev_tiles : deque.t Image
}.

Definition TileDropper__init__ (thecols therows : list Z) (colsep rowsep : Z)
    (tile_list : list Image) (img : ref) : TileDropper :=
  {| _colsep := colsep;
     _rowsep := rowsep;
     _tile_list := tile_list;
     _img := img;
     _curloc := None;
     _thecols := thecols;
     _therows := therows;
     _brightness := brightness_curve;
     _prev_tiles := deque.new 5 |}.

Definition set_curloc (self : TileDropper) (loc : option (Z * Z)) : TileDropper :=
  {| _colsep := _colsep self;
     _rowsep := _rowsep self;
     _tile_list := _tile_list self;
     _img := _img self;
     _curloc := loc;
     _thecols := _thecols self;
     _therows := _therows self;
     _brightness := _brightness self;
     _prev_tiles := _prev_tiles self |}.

Definition set_prev_tiles (self : TileDropper) (d : deque.t Image) : TileDropper :=
  {| _colsep := _colsep self;
     _rowsep := _rowsep self;
     _tile_list := _tile_list self;
     _img := _img self;
     _curloc := _curloc self;
     _thecols := _thecols self;
     _therows := _therows self;
     _brightness := _brightness self;
     _prev_tiles := d |}.

Definition update_location (self : TileDropper) : M TileDropper :=
  let self := set_prev_tiles self (deque.clear (_prev_tiles self)) in
  let* x := random_choice (_thecols self) 125 in
  let* y := random_choice (_therows self) 125 in
  ret (set_curloc self (Some (x, y))).

(** [ImageEnhance.Brightness(image).enhance(factor)] *)
Definition Brightness_enhance (image : Image) (factor : float) (lineno : nat)
  : M Image :=
  if im_blendable image then ret (im_enhance image factor)
  else raise (ValueError lineno).

(** [self._curloc[k]]; subscripting [None] is a [TypeError]. *)
Definition curloc (self : TileDropper) (lineno : nat) : M (Z * Z) :=
  match _curloc self with
  | Some loc => ret loc
  | None => raise (TypeError lineno)
  end.

(** The [for entry in self._prev_tiles] loop of [drop_tile], entered with
    [counter] and the entries still to visit. *)
Fixpoint paste_trail (self : TileDropper) (entries : list Image) (counter : nat)
  : M unit :=
  match entries with
  | [] => ret tt
  | entry :: entries' =>
      let* loc := curloc self 141 in
      let ypos := snd loc - Z.of_nat counter * (snd (im_size entry) + _rowsep self) in
      let* b := index (_brightness self) counter 143 in
      let* bright := Brightness_enhance entry b 143 in
      let* _ := Image_paste (_img self) bright (fst loc, ypos) in
      paste_trail self entries' (S counter)
  end.

Definition drop_tile (self : TileDropper) : M TileDropper :=
  let* self := match _curloc self with
               | None => update_location self
               | Some _ => ret self
               end in
  let* a_tile := random_choice (_tile_list self) 136 in
  let self := set_prev_tiles self (deque.appendleft a_tile (_prev_tiles self)) in
  let* _ := paste_trail self (deque.items (_prev_tiles self)) 0 in
  let* loc := curloc self 146 in
  let self := set_curloc self
                (Some (fst loc, snd loc + snd (im_size a_tile) + _rowsep self)) in
  let* loc := curloc self 147 in
  let* size := Image_size (_img self) in
  if snd size + (snd (im_size a_tile) + _rowsep self)
                * Z.of_nat (length (_brightness self)) <? snd loc
  then ret (set_curloc self None)
  else ret self.

(** ** The driver *)

(** The [for x: for y:] nest both passes of [randomly_fill_image] run, with
    [cell] as the body at [(x, y)]; [lx] and [ly] are the lines of the two
    [range] calls. *)
Definition grid_loop {S} (theargs : Args) (lx ly : nat) (acc : S)
    (cell : Z * Z -> S -> M S) : M S :=
  let* xs := range 0 (width theargs) (colsep theargs + 16) lx in
  for_acc xs acc (fun x acc =>
    let* ys := range 0 (height theargs) (rowsep theargs + 16) ly in
    for_acc ys acc (fun y acc => cell (x, y) acc)).

Definition randomly_fill_image (theargs : Args) (img : ref) (tile_list : list Image)
  : M ref :=
  let* all_tiles :=
    grid_loop theargs 181 182 [] (fun xy all_tiles => ret (all_tiles ++ [xy])) in
  let* glowing_tiles := random_choices all_tiles 24 185 in
  let* _ :=
    grid_loop theargs 187 188 tt (fun xy _ =>
      let* a_tile := random_choice tile_list 189 in
      let brightness_value :=
        if bool_decide (xy ∈ glowing_tiles) then 1.0%float else 0.2%float in
      let* bright := Brightness_enhance a_tile brightness_value 193 in
      Image_paste img bright xy) in
  ret img.

(** Lines 211 to 231 of [run]: the canvas, the optional pre-fill, the anchor
    grid and the droppers. *)
Definition canvas_setup (theargs : Args) (tile_list : list Image)
  : M (ref * list TileDropper) :=
  let* img := Image_new (width theargs, height theargs) 211 in
  let* _ := if prefill theargs
            then randomly_fill_image theargs img tile_list
            else ret img in
  let* tile0 := index tile_list 0 216 in
  let colwidth := fst (im_size tile0) + colsep theargs in
  let* size := Image_size img in
  let* thecols := range 0 (fst size) colwidth 218 in
  let* tile0 := index tile_list 0 221 in
  let rowwidth := snd (im_size tile0) + rowsep theargs in
  let* size := Image_size img in
  let* therows := range 0 (snd size - 5 * rowwidth) rowwidth 223 in
  let* tdss := range 0 (numupdators theargs) 1 227 in
  let* d_list :=
    for_acc tdss [] (fun tds d_list =>
      let dropper := TileDropper__init__ thecols therows (colsep theargs)
                       (rowsep theargs) tile_list img in
      ret (d_list ++ [dropper])) in
  ret (img, d_list).

(** Line 205 and lines 211 to 231 of [run]: the set-up on a tile list, in
    an output directory that exists.  [tile_list] is what
    [get_tiles(theargs.imagedir)] returned at line 204.  Lines 207 to 209
    do nothing when the output directory exists; otherwise they create it
    or raise, and touch neither the images, the generator nor the logger.
    They are [ensure_outdir] below, and [run_script] is [run] with every
    line in its place. *)
Definition setup (theargs : Args) (tile_list : list Image)
  : M (ref * list TileDropper) :=
  let* _ := logger_log INFO
              ("Got " ++ pretty (length tile_list) ++ " image tiles")%string None in
  canvas_setup theargs tile_list.

(** One pass of the frame loop (lines 236 to 240): every dropper drops once,
    then a copy of the canvas is appended to [img_list]. *)
Definition frame (img : ref) (x : Z) (acc : list TileDropper * list ref)
  : M (list TileDropper * list ref) :=
  let '(d_list, img_list) := acc in
  let* _ := logger_log DEBUG ("Step " ++ pretty x)%string None in
  let* d_list := for_each d_list drop_tile in
  let* snapshot := Image_copy img in
  ret (d_list, img_list ++ [snapshot]).

(** Lines 233 to 240 of [run]. *)
Definition frames (theargs : Args) (img : ref) (d_list : list TileDropper)
  : M (list TileDropper * list ref) :=
  let* xs := range 0 (numframes theargs) 1 235 in
  for_acc xs (d_list, []) (frame img).

(** [im.save(path, save_all=True, append_images=rest, loop=0, duration=d)]:
    the writer is handed the pixels the frames have at the call; the file
    holds what it wrote, also when it raises. *)
Definition Image_save (im : ref) (append_images : list ref) (d : Z) : M unit :=
  fun s =>
    let written := im_save (deref (heap s) im)
                     (map (deref (heap s)) append_images) d in
    (fst written,
     mkState (heap s) (rng s) (loglevel s) (log s) (Some (snd written))
             (dirs s)).

(** Lines 241 and 242 of [run]. *)
Definition encode (theargs : Args) (img_list : list ref) : M unit :=
  let* first := index img_list 0 241 in
  Image_save first (tail img_list) (duration theargs).

(** [run] on a tile list, in an output directory that exists: line 205 and
    lines 211 to 243. *)
Definition run (theargs : Args) (tile_list : list Image) : M Z :=
  let* (img, d_list) := setup theargs tile_list in
  let* (_, img_list) := frames theargs img d_list in
  let* _ := encode theargs img_list in
  ret 0.

(** The [try] statement of [main] (lines 261 to 266), on the parsed command
    line and the tile list of the directory, in an output directory that
    exists: the exit status and the final state.  Every exception the block
    raises here is an [Exception], which the handler catches.
    [main_from_argv] below is [main] from its first line, with the parsing,
    the tile directory and the output directory. *)
Definition main (theargs : Args) (tile_list : list Image) : State -> Z * State :=
  fun s =>
    match (let* _ := _setup_logging theargs in run theargs tile_list) s with
    | (Ok status, s') => (status, s')
    | (Raise e, s') =>
        (2, snd (logger_log ERROR "Caught exception" (Some e) s'))
    end.

(** The state [main] starts in: no image objects, a logger that nothing has
    configured (it inherits the root logger's WARNING), no output file. *)
Definition initial_state (g : G) : State :=
  {| heap := []; rng := g; loglevel := 30; log := []; outfile := None;
     dirs := [] |}.


(** ** Vocabulary of the properties *)

Definition with_heap (s : State) (h : list Image) : State :=
  mkState h (rng s) (loglevel s) (log s) (outfile s) (dirs s).

Definition with_rng (s : State) (g : G) : State :=
  mkState (heap s) g (loglevel s) (log s) (outfile s) (dirs s).

(** The canvas height a dropper sees. *)
Definition canvas_height (self : TileDropper) (s : State) : Z :=
  snd (im_size (deref (heap s) (_img self))).

(** Entry [i] of the brightness curve. *)
Definition brightness_at (i : nat) : float :=
  default 0%float (brightness_curve !! i).

(** The history after a push to the front: a full history loses its oldest
    entry. *)
Definition push_front (a_tile : Image) (hist : list Image) : list Image :=
  a_tile :: (if (length hist =? 5)%nat then removelast hist else hist).

(** What a trail composites: entry [i] of the history, at brightness
    [brightness_at i], [i] row pitches above the drop location. *)
Definition trail (rowsep : Z) (loc : Z * Z) (hist : list Image)
  : list (Image * (Z * Z)) :=
  imap (fun i entry =>
          (im_enhance entry (brightness_at i),
           (fst loc, snd loc - Z.of_nat i * (snd (im_size entry) + rowsep))))
       hist.

(** A canvas after a sequence of pastes. *)
Definition composite (c : Image) (ops : list (Image * (Z * Z))) : Image :=
  fold_left (fun c op => im_paste c (fst op) (snd op)) ops c.

(** Images the brightness enhancer accepts. *)
Definition blendable (l : list Image) : Prop :=
  Forall (fun t => im_blendable t = true) l.

(** What [__init__] establishes about the history and the curve. *)
Definition wf_dropper (self : TileDropper) : Prop :=
  _brightness self = brightness_curve /\
  deque.maxlen (_prev_tiles self) = 5%nat /\
  deque.bounded (_prev_tiles self).

(** The droppers a program can hold: a constructed one, and what the two
    methods return on one. *)
Inductive reachable : TileDropper -> Prop :=
| reach_init thecols therows colsep rowsep tile_list img :
    reachable (TileDropper__init__ thecols therows colsep rowsep tile_list img)
| reach_update self s self' s' :
    reachable self ->
    update_location self s = (Ok self', s') ->
    reachable self'
| reach_drop self s self' s' :
    reachable self ->
    drop_tile self s = (Ok self', s') ->
    reachable self'.

(** From [s] to [s'], only the image object [img] may have changed, and not
    in size: no object was created, every other object is as it was. *)
Definition only_canvas (img : ref) (s s' : State) : Prop :=
  length (heap s') = length (heap s) /\
  (forall r, r <> img -> heap s' !! r = heap s !! r) /\
  im_size (deref (heap s') img) = im_size (deref (heap s) img).

(** The fields of a dropper that [__init__] sets for good. *)
Definition same_setup (self self' : TileDropper) : Prop :=
  _colsep self' = _colsep self /\ _rowsep self' = _rowsep self /\
  _tile_list self' = _tile_list self /\ _img self' = _img self /\
  _thecols self' = _thecols self /\ _therows self' = _therows self /\
  _brightness self' = _brightness self.

(** The same command line with another frame count. *)
Definition with_numframes (theargs : Args) (n : Z) : Args :=
  {| imagedir := imagedir theargs; outdir := outdir theargs;
     duration := duration theargs; numupdators := numupdators theargs;
     prefill := prefill theargs; numframes := n;
     colsep := colsep theargs; rowsep := rowsep theargs;
     width := width theargs; height := height theargs;
     logconf := logconf theargs; verbose := verbose theargs |}.

(** The cells the two passes of [randomly_fill_image] visit, in order. *)
Definition cells (xs ys : list Z) : list (Z * Z) :=
  xs ≫= fun x => (fun y => (x, y)) <$> ys.

(** The same command line with another verbosity. *)
Definition with_verbose (theargs : Args) (v : Z) : Args :=
  {| imagedir := imagedir theargs; outdir := outdir theargs;
     duration := duration theargs; numupdators := numupdators theargs;
     prefill := prefill theargs; numframes := numframes theargs;
     colsep := colsep theargs; rowsep := rowsep theargs;
     width := width theargs; height := height theargs;
     logconf := logconf theargs; verbose := v |}.

(** What the second pass pastes at the cell [xy] when it chose the tile
    [t]: bright on a glowing cell, dim elsewhere. *)
Definition prefill_op (glowing_tiles : list (Z * Z)) (xy : Z * Z) (t : Image)
  : Image * (Z * Z) :=
  (im_enhance t (if bool_decide (xy ∈ glowing_tiles)
                 then 1.0%float else 0.2%float), xy).

(** [n] drops in a row. *)
Fixpoint drop_n (n : nat) (self : TileDropper) : M TileDropper :=
  match n with
  | O => ret self
  | S n' => let* self' := drop_tile self in drop_n n' self'
  end.

(** * Properties *)

(** ** The monad and the loops *)

Lemma bind_Ok {A B} (m : M A) (k : A -> M B) s b s' :
  bind m k s = (Ok b, s') ->
  exists a s1, m s = (Ok a, s1) /\ k a s1 = (Ok b, s').
Proof.
  unfold bind. destruct (m s) as [[a | e] s1]; [eauto | discriminate].
Qed.

Lemma bind_eq {A B} (m : M A) (k : A -> M B) s a s1 :
  m s = (Ok a, s1) -> bind m k s = k a s1.
Proof. unfold bind. intros ->. reflexivity. Qed.

Lemma bind_Raise {A B} (m : M A) (k : A -> M B) s e s1 :
  m s = (Raise e, s1) -> bind m k s = (Raise e, s1).
Proof. unfold bind. intros ->. reflexivity. Qed.

Lemma bind_congr {A B} (m m' : M A) (k k' : A -> M B) s :
  m s = m' s -> (forall a s1, k a s1 = k' a s1) ->
  bind m k s = bind m' k' s.
Proof.
  intros Hm Hk. unfold bind. rewrite Hm.
  destruct (m' s) as [[a | e] s1]; [apply Hk | reflexivity].
Qed.

Lemma for_acc_app {A S} (l1 l2 : list A) (acc : S) (body : A -> S -> M S) s :
  for_acc (l1 ++ l2) acc body s =
  bind (for_acc l1 acc body) (fun acc' => for_acc l2 acc' body) s.
Proof.
  revert acc s. induction l1 as [| x l1 IH]; intros acc s; simpl.
  - reflexivity.
  - unfold bind. destruct (body x acc s) as [[acc' | e] s1].
    + rewrite IH. reflexivity.
    + reflexivity.
Qed.

(** ** Python's [range] *)

Lemma py_range_pos (stop step : Z) :
  0 < step ->
  exists l, py_range 0 stop step = Some l /\
    (forall x, x ∈ l <-> 0 <= x < stop /\ (step | x)) /\
    StronglySorted Z.lt l.
Proof.
  intros Hstep. unfold py_range.
  destruct (Z.eqb_spec step 0) as [-> | _]; [lia |].
  destruct (Z.ltb_spec 0 step) as [_ | ?]; [| lia].
  eexists. split; [reflexivity |].
  set (len := Z.to_nat ((stop - 0 + step - 1) / step)).
  assert (Hlen : forall i : nat, (i < len)%nat <-> Z.of_nat i * step < stop).
  { intros i. unfold len. split; intros Hi.
    - assert (Z.of_nat i < (stop - 0 + step - 1) / step) by lia.
      assert (Z.of_nat i + 1 <= (stop - 0 + step - 1) / step) as Hle by lia.
      apply (Z.mul_le_mono_nonneg_r _ _ step) in Hle; [| lia].
      pose proof (Z.mul_div_le (stop - 0 + step - 1) step). nia.
    - assert (Z.of_nat i + 1 <= (stop - 0 + step - 1) / step); [| lia].
      apply Z.div_le_lower_bound; lia. }
  split.
  - intros x. rewrite list_elem_of_fmap. split.
    + intros (i & -> & Hi). apply elem_of_seq in Hi.
      split; [| exists (Z.of_nat i); lia].
      destruct Hi as [_ Hi]. simpl in Hi. apply Hlen in Hi. lia.
    + intros ([Hx0 Hx] & (k & ->)).
      assert (0 <= k) by nia.
      exists (Z.to_nat k). split; [lia |].
      apply elem_of_seq. split; [lia |]. simpl. apply Hlen. lia.
  - generalize 0%nat as k. generalize len as n.
    induction n as [| n IH]; intros k; simpl; constructor.
    + apply IH.
    + apply Forall_forall. intros y Hy.
      apply list_elem_of_fmap in Hy as (j & -> & Hj).
      apply elem_of_seq in Hj. nia.
Qed.

(** ** The [random] module *)

(** A [range] from 0 up to a bound that is not negative has an element only
    when the step and the bound are positive. *)
Lemma py_range_nonempty stop step l :
  py_range 0 stop step = Some l -> l <> [] -> 0 <= stop ->
  0 < step /\ 0 < stop.
Proof.
  unfold py_range. destruct (Z.eqb_spec step 0) as [| Hs]; [discriminate |].
  intros [= <-] Hne Hstop.
  assert (Hlen : forall n, Z.to_nat n <> 0%nat -> 0 < n) by lia.
  destruct (Z.ltb_spec 0 step) as [Hpos | Hneg].
  - split; [exact Hpos |].
    destruct (Z.lt_ge_cases 0 stop) as [| Hle]; [done |].
    exfalso. apply Hne.
    replace (Z.to_nat ((stop - 0 + step - 1) / step)) with 0%nat; [done |].
    assert ((stop - 0 + step - 1) / step <= 0); [| lia].
    assert ((stop - 0 + step - 1) / step < 1); [| lia].
    apply Z.div_lt_upper_bound; lia.
  - exfalso. apply Hne.
    replace (Z.to_nat ((0 - stop - step - 1) / - step)) with 0%nat; [done |].
    assert ((0 - stop - step - 1) / - step < 1); [| lia].
    apply Z.div_lt_upper_bound; lia.
Qed.

Lemma index_Ok {A} (l : list A) i ln s x s' :
  index l i ln s = (Ok x, s') -> l !! i = Some x /\ s' = s.
Proof.
  unfold index. destruct (l !! i); unfold ret, raise; intros [=]; subst; auto.
Qed.

Lemma random_choice_inv {A} (l : list A) ln s x s' :
  random_choice l ln s = (Ok x, s') ->
  x ∈ l /\ s' = with_rng s (snd (randbelow (length l) (rng s))).
Proof.
  unfold random_choice. destruct l as [| a l]; [discriminate |].
  intros (i & s1 & Hd & Hi)%bind_Ok.
  unfold draw in Hd. destruct (randbelow _ _) as [j g] eqn:Hr.
  injection Hd as <- <-. apply index_Ok in Hi as [Hi ->].
  split; [eapply list_elem_of_lookup_2; eauto | reflexivity].
Qed.

Lemma random_choice_Ok {A} (l : list A) ln s :
  l <> [] ->
  exists x, x ∈ l /\
    random_choice l ln s =
    (Ok x, with_rng s (snd (randbelow (length l) (rng s)))).
Proof.
  intros Hl. unfold random_choice. destruct l as [| a l]; [done |].
  pose proof (randbelow_lt (length (a :: l)) (rng s)) as Hlt.
  unfold bind, draw. destruct (randbelow _ _) as [j g] eqn:Hr.
  simpl in Hlt. destruct ((a :: l) !! j) as [x |] eqn:Hx.
  - exists x. split; [eapply list_elem_of_lookup_2; eauto |].
    unfold index. rewrite Hx. reflexivity.
  - apply lookup_ge_None in Hx. simpl in Hx. lia.
Qed.

Lemma random_choice_empty {A} ln s :
  random_choice (@nil A) ln s = (Raise (IndexError ln), s).
Proof. reflexivity. Qed.

(** ** The heap *)

Lemma with_heap_id s : with_heap s (heap s) = s.
Proof. destruct s; reflexivity. Qed.

Lemma heap_write_id (h : list Image) r : <[r := deref h r]> h = h.
Proof.
  apply list_insert_id'. intros Hr. unfold deref.
  destruct (lookup_lt_is_Some_2 h r Hr) as [c Hc]. by rewrite Hc.
Qed.

Lemma heap_write_write (h : list Image) r c (f : Image -> Image) :
  <[r := f (deref (<[r := c]> h) r)]> (<[r := c]> h) = <[r := f c]> h.
Proof.
  destruct (decide (r < length h)%nat) as [Hr | Hr].
  - unfold deref. rewrite list_lookup_insert_eq by done. simpl.
    apply list_insert_insert_eq.
  - rewrite !list_insert_ge; rewrite ?length_insert; done || lia.
Qed.

Lemma deref_write_ne (h : list Image) r r' c :
  r <> r' -> deref (<[r := c]> h) r' = deref h r'.
Proof. intros Hne. unfold deref. by rewrite list_lookup_insert_ne. Qed.

Lemma composite_size c ops : im_size (composite c ops) = im_size c.
Proof.
  unfold composite. revert c. induction ops as [| op ops IH]; intros c; simpl.
  - reflexivity.
  - rewrite IH. apply im_size_paste.
Qed.

Lemma deref_write_size (h : list Image) r r' c :
  im_size c = im_size (deref h r) ->
  im_size (deref (<[r := c]> h) r') = im_size (deref h r').
Proof.
  intros Hc. destruct (decide (r = r')) as [<- | Hne].
  - destruct (decide (r < length h)%nat) as [Hr | Hr].
    + unfold deref at 1. rewrite list_lookup_insert_eq by done. exact Hc.
    + rewrite list_insert_ge by lia. reflexivity.
  - by rewrite deref_write_ne.
Qed.

(** ** The dropper *)

Lemma brightness_lookup i :
  (i < 5)%nat -> brightness_curve !! i = Some (brightness_at i).
Proof.
  intros Hi. do 5 (destruct i as [| i]; [reflexivity |]). lia.
Qed.

(** The trail loop, entered at [counter], composites the entries it still
    has to visit and raises nothing while the counter stays on the curve and
    the enhancer accepts the entries. *)
Lemma paste_trail_eq self loc entries counter s :
  _curloc self = Some loc ->
  _brightness self = brightness_curve ->
  (counter + length entries <= 5)%nat ->
  blendable entries ->
  paste_trail self entries counter s =
  (Ok tt,
   with_heap s
     (<[_img self :=
          composite (deref (heap s) (_img self))
            (imap (fun i entry =>
                     (im_enhance entry (brightness_at (counter + i)),
                      (fst loc,
                       snd loc - Z.of_nat (counter + i)
                                 * (snd (im_size entry) + _rowsep self))))
                  entries)]> (heap s))).
Proof.
  intros Hloc Hb. revert counter s.
  induction entries as [| entry entries IH]; intros counter s Hlen Hbl; simpl.
  - unfold ret, composite. simpl. by rewrite heap_write_id, with_heap_id.
  - simpl in Hlen. apply Forall_cons in Hbl as [Hbe Hbl].
    unfold curloc. rewrite Hloc, Hb.
    unfold bind at 1. unfold ret at 1.
    unfold bind at 1. unfold index.
    rewrite brightness_lookup by lia. unfold ret at 1.
    unfold bind at 1. unfold Brightness_enhance. rewrite Hbe. unfold ret at 1.
    unfold bind, Image_paste. rewrite IH by (done || lia). simpl.
    f_equal. unfold with_heap. simpl. f_equal.
    rewrite (heap_write_write (heap s) (_img self) _
               (fun c => composite c _)).
    f_equal. unfold composite. simpl.
    rewrite Nat.add_0_r. f_equal.
    apply imap_ext. intros i x _. simpl.
    by rewrite Nat.add_succ_r.
Qed.

(** At the first entry the enhancer refuses, the loop raises the
    [ValueError] of line 143; the entries before it have been pasted. *)
Lemma paste_trail_raise self loc before entry after counter s :
  _curloc self = Some loc ->
  _brightness self = brightness_curve ->
  (counter + length (before ++ entry :: after) <= 5)%nat ->
  blendable before ->
  im_blendable entry = false ->
  paste_trail self (before ++ entry :: after) counter s =
  (Raise (ValueError 143),
   with_heap s
     (<[_img self :=
          composite (deref (heap s) (_img self))
            (imap (fun i entry =>
                     (im_enhance entry (brightness_at (counter + i)),
                      (fst loc,
                       snd loc - Z.of_nat (counter + i)
                                 * (snd (im_size entry) + _rowsep self))))
                  before)]> (heap s))).
Proof.
  intros Hloc Hb. revert counter s.
  induction before as [| e0 before IH]; intros counter s Hlen Hbl Hne;
    cbn [app paste_trail].
  - cbn [app length] in Hlen. unfold curloc. rewrite Hloc, Hb.
    unfold bind at 1. unfold ret at 1.
    unfold bind at 1. unfold index.
    rewrite brightness_lookup by lia. unfold ret at 1.
    unfold bind at 1. unfold Brightness_enhance. rewrite Hne.
    unfold raise, composite. simpl. by rewrite heap_write_id, with_heap_id.
  - cbn [app length] in Hlen. apply Forall_cons in Hbl as [Hbe Hbl].
    unfold curloc. rewrite Hloc, Hb.
    unfold bind at 1. unfold ret at 1.
    unfold bind at 1. unfold index.
    rewrite brightness_lookup by lia. unfold ret at 1.
    unfold bind at 1. unfold Brightness_enhance. rewrite Hbe. unfold ret at 1.
    unfold bind, Image_paste. rewrite IH by (done || lia). simpl.
    f_equal. unfold with_heap. simpl. f_equal.
    rewrite (heap_write_write (heap s) (_img self) _
               (fun c => composite c _)).
    f_equal. unfold composite. simpl.
    rewrite Nat.add_0_r. f_equal.
    apply imap_ext. intros i x _. simpl.
    by rewrite Nat.add_succ_r.
Qed.

Lemma update_location_inv self s self' s' :
  update_location self s = (Ok self', s') ->
  exists x y,
    x ∈ _thecols self /\ y ∈ _therows self /\
    self' = set_curloc (set_prev_tiles self (deque.clear (_prev_tiles self)))
              (Some (x, y)) /\
    heap s' = heap s /\ loglevel s' = loglevel s /\ log s' = log s /\
    outfile s' = outfile s.
Proof.
  unfold update_location. simpl.
  intros (x & s1 & Hx & (y & s2 & Hy & Hr)%bind_Ok)%bind_Ok.
  apply random_choice_inv in Hx as [Hx ->].
  apply random_choice_inv in Hy as [Hy ->].
  injection Hr as <- <-. exists x, y. auto 10.
Qed.

Lemma update_location_Ok self s :
  _thecols self <> [] -> _therows self <> [] ->
  exists x y s',
    x ∈ _thecols self /\ y ∈ _therows self /\
    update_location self s =
    (Ok (set_curloc (set_prev_tiles self (deque.clear (_prev_tiles self)))
           (Some (x, y))), s') /\
    heap s' = heap s.
Proof.
  intros Hc Hr. unfold update_location. simpl.
  destruct (random_choice_Ok (_thecols self) 125 s Hc) as (x & Hx & Ex).
  destruct (random_choice_Ok (_therows self) 125
              (with_rng s (snd (randbelow (length (_thecols self)) (rng s)))) Hr)
    as (y & Hy & Ey).
  exists x, y. eexists. split; [done |]. split; [done |].
  rewrite (bind_eq _ _ _ _ _ Ex), (bind_eq _ _ _ _ _ Ey). split; reflexivity.
Qed.

(** No row anchor to choose from: the relocation raises at line 125, after
    the column has been drawn. *)
Lemma update_location_no_rows self s :
  _thecols self <> [] -> _therows self = [] ->
  update_location self s =
  (Raise (IndexError 125),
   with_rng s (snd (randbelow (length (_thecols self)) (rng s)))).
Proof.
  intros Hc Hr. unfold update_location. simpl.
  destruct (random_choice_Ok (_thecols self) 125 s Hc) as (x & Hx & Ex).
  rewrite (bind_eq _ _ _ _ _ Ex), Hr. reflexivity.
Qed.

Lemma length_removelast {A} (l : list A) :
  length (removelast l) = pred (length l).
Proof. rewrite removelast_firstn_len, length_take. lia. Qed.

Lemma appendleft_items (a : Image) (d : deque.t Image) :
  deque.maxlen d = 5%nat -> deque.bounded d ->
  deque.appendleft a d = deque.mk 5 (push_front a (deque.items d)).
Proof.
  unfold deque.bounded, deque.len, deque.appendleft, push_front.
  destruct d as [m l]. simpl. intros -> Hl. f_equal.
  destruct (Nat.eqb_spec (length l) 5) as [E | E].
  - rewrite E. simpl. destruct l; [discriminate | reflexivity].
  - destruct (Nat.ltb_spec 5 (S (length l))); [lia | reflexivity].
Qed.

Lemma push_front_length (a : Image) l :
  (length l <= 5)%nat -> (length (push_front a l) <= 5)%nat.
Proof.
  unfold push_front. intros Hl. simpl.
  destruct (Nat.eqb_spec (length l) 5) as [E | E]; [| lia].
  rewrite length_removelast. lia.
Qed.

Lemma appendleft_bounded (a : Image) (d : deque.t Image) :
  deque.bounded d -> deque.bounded (deque.appendleft a d).
Proof.
  unfold deque.bounded, deque.len, deque.appendleft.
  destruct d as [m l]. cbn [deque.maxlen deque.items]. intros Hl.
  destruct (Nat.ltb_spec m (length (a :: l))) as [Hlt | Hge]; [| lia].
  rewrite length_removelast. simpl in *. lia.
Qed.

(** What one drop from a known location does, in full: it chooses a tile
    and pushes it; when the enhancer accepts the whole history it pastes the
    trail and moves on, and at the first entry the enhancer refuses it
    raises the [ValueError] of line 143, the entries before pasted. *)
Lemma drop_tile_at self loc s :
  _curloc self = Some loc ->
  wf_dropper self ->
  _tile_list self <> [] ->
  exists a_tile,
    a_tile ∈ _tile_list self /\
    (blendable (push_front a_tile (deque.items (_prev_tiles self))) ->
     drop_tile self s =
     (let hist := push_front a_tile (deque.items (_prev_tiles self)) in
      let pitch := snd (im_size a_tile) + _rowsep self in
      let y' := snd loc + pitch in
      (Ok (set_curloc (set_prev_tiles self (deque.mk 5 hist))
             (if canvas_height self s + pitch * 5 <? y' then None
              else Some (fst loc, y'))),
       with_heap
         (with_rng s (snd (randbelow (length (_tile_list self)) (rng s))))
         (<[_img self := composite (deref (heap s) (_img self))
                           (trail (_rowsep self) loc hist)]> (heap s))))) /\
    (forall before entry after,
       push_front a_tile (deque.items (_prev_tiles self))
         = before ++ entry :: after ->
       blendable before ->
       im_blendable entry = false ->
       drop_tile self s =
       (Raise (ValueError 143),
        with_heap
          (with_rng s (snd (randbelow (length (_tile_list self)) (rng s))))
          (<[_img self := composite (deref (heap s) (_img self))
                            (trail (_rowsep self) loc before)]> (heap s)))).
Proof.
  intros Hloc (Hb & Hmax & Hbd) Htl.
  destruct (random_choice_Ok (_tile_list self) 136 s Htl) as (a & Ha & Ea).
  exists a. split; [done |].
  set (hist := push_front a (deque.items (_prev_tiles self))).
  set (self1 := set_prev_tiles self (deque.mk 5 hist)).
  assert (Hh : (length hist <= 5)%nat).
  { apply push_front_length. unfold deque.bounded, deque.len in Hbd. lia. }
  assert (Hh0 : (0 + length hist <= 5)%nat) by (simpl; exact Hh).
  split.
  - intros Hbl. unfold drop_tile. rewrite Hloc.
    unfold bind at 1. unfold ret at 1.
    rewrite (bind_eq _ _ _ _ _ Ea).
    rewrite appendleft_items by done. fold hist. fold self1.
    rewrite (bind_eq _ _ _ _ _ (paste_trail_eq self1 loc hist 0 _ Hloc Hb Hh0 Hbl)).
    unfold curloc at 1. cbn [_curloc self1 set_prev_tiles].
    rewrite Hloc. unfold bind at 1. unfold ret at 1.
    unfold curloc. cbn [_curloc set_curloc].
    unfold bind at 1. unfold ret at 1.
    unfold bind, Image_size, ret. cbn -[Z.mul Z.add Z.ltb composite].
    unfold canvas_height.
    rewrite deref_write_size by apply composite_size.
    rewrite Hb. change (Z.of_nat (length brightness_curve)) with 5.
    rewrite <- !Z.add_assoc.
    by destruct (_ <? _).
  - intros before entry after Eh Hbl Hne. unfold drop_tile. rewrite Hloc.
    unfold bind at 1. unfold ret at 1.
    rewrite (bind_eq _ _ _ _ _ Ea).
    rewrite appendleft_items by done. fold hist. fold self1.
    cbn [deque.items _prev_tiles self1 set_prev_tiles].
    subst self1 hist. rewrite Eh in Hh0 |- *.
    by rewrite (bind_Raise _ _ _ _ _
                  (paste_trail_raise
                     (set_prev_tiles self
                        (deque.mk 5 (before ++ entry :: after)))
                     loc before entry after 0 _ Hloc Hb Hh0 Hbl Hne)).
Qed.

(** A drop that returns, whatever the dropper: it relocates first when the
    location is unset, pushes the chosen tile, and leaves the location
    either unset or one row pitch lower in the same column. *)
Lemma drop_tile_inv self s self' s' :
  drop_tile self s = (Ok self', s') ->
  exists self1 s1 a_tile loc c',
    match _curloc self with
    | None => update_location self s = (Ok self1, s1)
    | Some _ => self1 = self /\ s1 = s
    end /\
    _curloc self1 = Some loc /\
    a_tile ∈ _tile_list self1 /\
    self' = set_curloc
              (set_prev_tiles self1
                 (deque.appendleft a_tile (_prev_tiles self1))) c' /\
    (c' = None \/
     c' = Some (fst loc, snd loc + snd (im_size a_tile) + _rowsep self1)).
Proof.
  unfold drop_tile.
  intros (self1 & s1 & H1 & (a & s2 & Ha & H2)%bind_Ok)%bind_Ok.
  apply random_choice_inv in Ha as [Ha ->].
  apply bind_Ok in H2 as ([] & s3 & _ & H3).
  apply bind_Ok in H3 as (loc & s4 & Hloc & H4).
  unfold curloc in Hloc. cbn [_curloc set_prev_tiles] in Hloc.
  destruct (_curloc self1) as [loc1 |] eqn:E1; [| discriminate].
  injection Hloc as <- <-.
  unfold curloc in H4. cbn [_curloc set_curloc] in H4.
  apply bind_Ok in H4 as (loc2 & s5 & [= <- <-] & H5).
  apply bind_Ok in H5 as (size & s6 & _ & H6).
  exists self1, s1, a, loc1.
  assert (Hfirst : match _curloc self with
                   | None => update_location self s = (Ok self1, s1)
                   | Some _ => self1 = self /\ s1 = s
                   end).
  { destruct (_curloc self); [| exact H1]. by injection H1 as <- <-. }
  cbn [_rowsep set_prev_tiles set_curloc] in H6.
  destruct (_ <? _); injection H6 as <- <-; eexists; eauto 10.
Qed.

Lemma wf_dropper_init thecols therows colsep rowsep tile_list img :
  wf_dropper (TileDropper__init__ thecols therows colsep rowsep tile_list img).
Proof. repeat split. unfold deque.bounded, deque.len. simpl. lia. Qed.

Lemma wf_dropper_update self s self' s' :
  wf_dropper self -> update_location self s = (Ok self', s') ->
  wf_dropper self'.
Proof.
  intros (Hb & Hm & _) (x & y & _ & _ & -> & _)%update_location_inv.
  repeat split; [exact Hb | exact Hm |].
  unfold deque.bounded, deque.len. simpl. lia.
Qed.

Lemma wf_dropper_drop self s self' s' :
  wf_dropper self -> drop_tile self s = (Ok self', s') -> wf_dropper self'.
Proof.
  intros Hwf (self1 & s1 & a & loc & c' & H1 & _ & _ & -> & _)%drop_tile_inv.
  assert (Hwf1 : wf_dropper self1).
  { destruct (_curloc self).
    - by destruct H1 as [-> _].
    - eapply wf_dropper_update; eauto. }
  destruct Hwf1 as (Hb & Hm & Hbd).
  repeat split; [exact Hb | exact Hm |].
  cbn [_prev_tiles set_curloc set_prev_tiles].
  by apply appendleft_bounded.
Qed.

Lemma wf_dropper_reachable self : reachable self -> wf_dropper self.
Proof.
  induction 1 as [| self s self' s' _ IH Hu | self s self' s' _ IH Hd].
  - apply wf_dropper_init.
  - eapply wf_dropper_update; eauto.
  - eapply wf_dropper_drop; eauto.
Qed.

Lemma drop_tile_relocate self s self1 s1 :
  _curloc self = None ->
  update_location self s = (Ok self1, s1) ->
  drop_tile self s = drop_tile self1 s1.
Proof.
  intros Hcur Hu. unfold drop_tile. rewrite Hcur, (bind_eq _ _ _ _ _ Hu).
  apply update_location_inv in Hu as (x & y & _ & _ & -> & _).
  reflexivity.
Qed.

Lemma reachable_drop_n n self s self' s' :
  reachable self -> drop_n n self s = (Ok self', s') -> reachable self'.
Proof.
  revert self s. induction n as [| n IH]; intros self s Hr; simpl.
  - by intros [= <- <-].
  - intros (self1 & s1 & Hd & Hn)%bind_Ok.
    eapply IH; [| exact Hn]. eapply reach_drop; eauto.
Qed.

(** C6: the trailing history of a dropper never holds more than 5 tiles.
    Every dropper the program can hold (one just constructed, or one that
    [update_location] or [drop_tile] returned on such a dropper, any number of
    times and in any order) has a history of length at most 5, in a deque
    whose [maxlen] is still 5. *)
Theorem history_never_exceeds_five self :
  reachable self ->
  (length (deque.items (_prev_tiles self)) <= 5)%nat /\
  deque.maxlen (_prev_tiles self) = 5%nat.
Proof.
  intros (_ & Hm & Hbd)%wf_dropper_reachable.
  unfold deque.bounded, deque.len in Hbd. split; [lia | exact Hm].
Qed.

(** C10: a drop that starts with a location and ends with a location keeps
    the column: the horizontal coordinate after the drop is the one before
    it (and the vertical coordinate moved down by the pitch of one of the
    tiles). *)
Theorem drop_keeps_column self s self' s' x y x' y' :
  drop_tile self s = (Ok self', s') ->
  _curloc self = Some (x, y) ->
  _curloc self' = Some (x', y') ->
  x' = x /\
  exists a_tile, a_tile ∈ _tile_list self /\
    y' = y + snd (im_size a_tile) + _rowsep self.
Proof.
  intros (self1 & s1 & a & loc & c' & H1 & Hloc & Ha & -> & Hc')%drop_tile_inv
         Hcur Hcur'.
  rewrite Hcur in H1. destruct H1 as [-> ->].
  rewrite Hcur in Hloc. injection Hloc as <-.
  cbn [_curloc set_curloc] in Hcur'. subst c'.
  destruct Hc' as [[=] | [= -> ->]]. eauto.
Qed.

Lemma blendable_push_front (a : Image) l :
  im_blendable a = true -> blendable l -> blendable (push_front a l).
Proof.
  intros Ha Hl. unfold push_front. apply Forall_cons. split; [exact Ha |].
  destruct (length l =? 5)%nat; [| exact Hl].
  rewrite removelast_firstn_len. by apply Forall_take.
Qed.

Lemma blendable_elem (a : Image) l :
  blendable l -> a ∈ l -> im_blendable a = true.
Proof. intros Hl Ha. unfold blendable in Hl. rewrite Forall_forall in Hl. auto. Qed.



(** ** Effects on the heap *)

Lemma only_canvas_refl img s : only_canvas img s s.
Proof. by repeat split. Qed.

Lemma only_canvas_trans img s1 s2 s3 :
  only_canvas img s1 s2 -> only_canvas img s2 s3 -> only_canvas img s1 s3.
Proof.
  intros (L1 & F1 & S1) (L2 & F2 & S2). repeat split.
  - congruence.
  - intros r Hr. rewrite F2, F1; done.
  - congruence.
Qed.

Lemma only_canvas_paste img src box s :
  only_canvas img s (snd (Image_paste img src box s)).
Proof.
  unfold Image_paste. simpl. repeat split.
  - apply length_insert.
  - intros r Hr. by apply list_lookup_insert_ne.
  - apply deref_write_size, im_size_paste.
Qed.

Lemma only_canvas_heap img s s' :
  heap s' = heap s -> only_canvas img s s'.
Proof. intros E. unfold only_canvas. rewrite E. by repeat split. Qed.

Lemma for_acc_preserves {A S} (R : State -> State -> Prop)
    (l : list A) (body : A -> S -> M S) :
  (forall s, R s s) ->
  (forall s1 s2 s3, R s1 s2 -> R s2 s3 -> R s1 s3) ->
  (forall x acc s acc' s', x ∈ l -> body x acc s = (Ok acc', s') -> R s s') ->
  forall acc s acc' s', for_acc l acc body s = (Ok acc', s') -> R s s'.
Proof.
  intros Hrefl Htrans. induction l as [| x l IH]; intros Hbody acc s acc' s'.
  - intros [= <- <-]. apply Hrefl.
  - simpl. intros (acc1 & s1 & H1 & H2)%bind_Ok.
    eapply Htrans.
    + eapply Hbody; [left | exact H1].
    + eapply IH; [| exact H2]. intros. eapply Hbody; [right |]; eauto.
Qed.

Lemma for_each_inv {A} (Q : A -> Prop) (P : A -> A -> Prop)
    (R : State -> State -> Prop) (method : A -> M A) :
  (forall s, R s s) ->
  (forall s1 s2 s3, R s1 s2 -> R s2 s3 -> R s1 s3) ->
  (forall x s x' s', Q x -> method x s = (Ok x', s') -> P x x' /\ R s s') ->
  forall l s l' s',
    Forall Q l -> for_each l method s = (Ok l', s') ->
    Forall2 P l l' /\ R s s'.
Proof.
  intros Hrefl Htrans Hm. induction l as [| x l IH]; intros s l' s' HQ.
  - intros [= <- <-]. split; [constructor | apply Hrefl].
  - simpl. intros (x' & s1 & H1 & (l1 & s2 & H2 & [= <- <-])%bind_Ok)%bind_Ok.
    inversion HQ as [| ? ? Hx Hl]; subst.
    destruct (Hm _ _ _ _ Hx H1) as [HP HR1].
    destruct (IH _ _ _ Hl H2) as [HF HR2].
    split; [by constructor | eauto].
Qed.

Lemma Brightness_enhance_Ok image factor ln s t s' :
  Brightness_enhance image factor ln s = (Ok t, s') ->
  im_blendable image = true /\ t = im_enhance image factor /\ s' = s.
Proof.
  unfold Brightness_enhance. destruct (im_blendable image); [| discriminate].
  by intros [= <- <-].
Qed.

Lemma paste_trail_frame self entries counter s s' :
  paste_trail self entries counter s = (Ok tt, s') ->
  only_canvas (_img self) s s'.
Proof.
  revert counter s. induction entries as [| entry entries IH]; intros counter s.
  - intros [= <-]. apply only_canvas_refl.
  - simpl. intros (loc & s1 & Hloc & H1)%bind_Ok.
    unfold curloc in Hloc. destruct (_curloc self) as [loc0 |]; [| discriminate].
    injection Hloc as -> <-.
    apply bind_Ok in H1 as (b & s2 & Hb & H2). apply index_Ok in Hb as [_ ->].
    apply bind_Ok in H2 as (t & s2' & Ht & H2).
    apply Brightness_enhance_Ok in Ht as (_ & -> & ->).
    apply bind_Ok in H2 as ([] & s3 & Hp & H3).
    eapply only_canvas_trans; [| eapply IH; exact H3].
    pose proof (only_canvas_paste (_img self) (im_enhance entry b)
                  (fst loc, snd loc - Z.of_nat counter
                                     * (snd (im_size entry) + _rowsep self)) s) as Hc.
    by rewrite Hp in Hc.
Qed.

Lemma update_location_frame self s self' s' :
  update_location self s = (Ok self', s') ->
  same_setup self self' /\ only_canvas (_img self) s s'.
Proof.
  intros (x & y & _ & _ & -> & Hh & _)%update_location_inv.
  split; [by repeat split | by apply only_canvas_heap].
Qed.

Lemma drop_tile_frame self s self' s' :
  drop_tile self s = (Ok self', s') ->
  same_setup self self' /\ only_canvas (_img self) s s'.
Proof.
  unfold drop_tile.
  intros (self1 & s1 & H1 & (a & s2 & Ha & H2)%bind_Ok)%bind_Ok.
  assert (Hs1 : same_setup self self1 /\ only_canvas (_img self) s s1).
  { destruct (_curloc self).
    - injection H1 as <- <-. split; [by repeat split | apply only_canvas_refl].
    - by apply update_location_frame. }
  destruct Hs1 as [Hsame Hc1].
  assert (Himg : _img self1 = _img self) by apply Hsame.
  apply random_choice_inv in Ha as [_ ->].
  apply bind_Ok in H2 as ([] & s3 & Hp & H3).
  apply paste_trail_frame in Hp. cbn [_img set_prev_tiles] in Hp.
  rewrite Himg in Hp.
  apply bind_Ok in H3 as (loc & s4 & Hloc & H4).
  unfold curloc in Hloc. cbn [_curloc set_prev_tiles] in Hloc.
  destruct (_curloc self1); [| discriminate].
  injection Hloc as <- <-.
  unfold curloc in H4. cbn [_curloc set_curloc] in H4.
  apply bind_Ok in H4 as (loc2 & s5 & [= <- <-] & H5).
  apply bind_Ok in H5 as (size & s6 & Hsz & H6).
  unfold Image_size in Hsz. injection Hsz as <- <-.
  assert (Hc : only_canvas (_img self) s s3).
  { eapply only_canvas_trans; [exact Hc1 |].
    eapply only_canvas_trans; [| exact Hp]. by apply only_canvas_heap. }
  destruct (_ <? _); injection H6 as <- <-; (split; [exact Hsame | exact Hc]).
Qed.

(** ** The driver's loops *)

Lemma py_range_unit (n : Z) :
  py_range 0 n 1 = Some (Z.of_nat <$> seq 0 (Z.to_nat n)).
Proof.
  unfold py_range. simpl.
  replace ((n - 0 + 1 - 1) / 1) with n by (rewrite Z.div_1_r; lia).
  f_equal. apply map_ext. intros i. lia.
Qed.

Lemma range_unit (n : Z) ln s :
  range 0 n 1 ln s = (Ok (Z.of_nat <$> seq 0 (Z.to_nat n)), s).
Proof. unfold range. by rewrite py_range_unit. Qed.

Lemma range_Ok start stop step ln s l s' :
  range start stop step ln s = (Ok l, s') ->
  py_range start stop step = Some l /\ s' = s.
Proof.
  unfold range. destruct (py_range start stop step); intros [=]; by subst.
Qed.

Lemma for_acc_collect {A} (l acc : list A) s :
  for_acc l acc (fun x acc => ret (acc ++ [x])) s = (Ok (acc ++ l), s).
Proof.
  revert acc. induction l as [| x l IH]; intros acc; simpl.
  - by rewrite app_nil_r.
  - unfold bind, ret at 1. rewrite IH. by rewrite <- app_assoc.
Qed.

Lemma for_acc_replicate {A B} (l : list A) (acc : list B) (d : B) s :
  for_acc l acc (fun _ acc => ret (acc ++ [d])) s =
  (Ok (acc ++ replicate (length l) d), s).
Proof.
  revert acc. induction l as [| x l IH]; intros acc; simpl.
  - by rewrite app_nil_r.
  - unfold bind, ret at 1. rewrite IH. by rewrite <- app_assoc.
Qed.

Lemma logger_log_eq level m e s :
  logger_log level m e s =
  (Ok tt, if loglevel s <=? level
          then mkState (heap s) (rng s) (loglevel s)
                       (log s ++ [mkLogRecord level m e]) (outfile s)
                       (dirs s)
          else s).
Proof. reflexivity. Qed.

Lemma logger_log_frame level m e s r s' img :
  logger_log level m e s = (r, s') ->
  r = Ok tt /\ heap s' = heap s /\ only_canvas img s s'.
Proof.
  rewrite logger_log_eq. intros [= <- <-].
  assert (heap (if loglevel s <=? level
                then mkState (heap s) (rng s) (loglevel s)
                       (log s ++ [mkLogRecord level m e]) (outfile s)
                       (dirs s)
                else s) = heap s) as E by (by destruct (_ <=? _)).
  split; [done |]. split; [done |]. by apply only_canvas_heap.
Qed.

Lemma random_choices_inv {A} (population : list A) k ln s l s' :
  random_choices population k ln s = (Ok l, s') ->
  length l = k /\ Forall (fun x => x ∈ population) l /\ heap s' = heap s.
Proof.
  revert s l. induction k as [| k IH]; intros s l; simpl.
  - intros [= <- <-]. by repeat split.
  - intros (i & s1 & Hd & (x & s2 & Hx & (l1 & s3 & Hl & [= <- <-])%bind_Ok)%bind_Ok)%bind_Ok.
    unfold draw in Hd. destruct (randfloor _ _) as [j g].
    injection Hd as <- <-. apply index_Ok in Hx as [Hx ->].
    apply IH in Hl as (Hlen & Hall & Hh). simpl in Hh.
    split; [simpl; congruence |]. split; [| done].
    constructor; [eapply list_elem_of_lookup_2; eauto | done].
Qed.

Lemma random_choices_Ok {A} (population : list A) k ln s :
  population <> [] ->
  exists l s', random_choices population k ln s = (Ok l, s').
Proof.
  intros Hp. revert s. induction k as [| k IH]; intros s; simpl.
  - by eexists _, _.
  - unfold bind at 1, draw.
    pose proof (randfloor_lt (length population) (rng s)) as Hlt.
    destruct (randfloor _ _) as [j g]. simpl in Hlt.
    destruct (lookup_lt_is_Some_2 population j) as [x Hx].
    { apply Hlt. destruct population; [done | simpl; lia]. }
    unfold bind at 1, index. rewrite Hx. unfold ret at 1.
    destruct (IH (mkState (heap s) g (loglevel s) (log s) (outfile s) (dirs s)))
      as (l & s' & El).
    rewrite (bind_eq _ _ _ _ _ El). by eexists _, _.
Qed.

Lemma grid_loop_frame {S} theargs lx ly (acc : S) cell img s acc' s' :
  (forall xy acc s acc' s', cell xy acc s = (Ok acc', s') -> only_canvas img s s') ->
  grid_loop theargs lx ly acc cell s = (Ok acc', s') ->
  only_canvas img s s'.
Proof.
  intros Hcell. unfold grid_loop.
  intros (xs & s1 & [_ ->]%range_Ok & Hloop)%bind_Ok.
  revert Hloop. apply for_acc_preserves.
  - apply only_canvas_refl.
  - apply only_canvas_trans.
  - intros x acc1 s2 acc2 s3 _ (ys & s4 & [_ ->]%range_Ok & Hin)%bind_Ok.
    revert Hin. apply for_acc_preserves.
    + apply only_canvas_refl.
    + apply only_canvas_trans.
    + intros y acc3 s5 acc4 s6 _. apply Hcell.
Qed.

Lemma randomly_fill_image_frame theargs img tile_list s r s' :
  randomly_fill_image theargs img tile_list s = (Ok r, s') ->
  r = img /\ only_canvas img s s'.
Proof.
  unfold randomly_fill_image.
  intros (all_tiles & s1 & H1 & (glowing & s2 & H2 & ([] & s3 & H3 & [= <- <-])%bind_Ok)%bind_Ok)%bind_Ok.
  split; [done |].
  eapply only_canvas_trans; [| eapply only_canvas_trans].
  - eapply grid_loop_frame; [| exact H1].
    intros xy acc s0 acc' s0' [= _ <-]. apply only_canvas_refl.
  - apply only_canvas_heap. by apply random_choices_inv in H2 as (_ & _ & ?).
  - eapply grid_loop_frame; [| exact H3].
    intros xy [] s0 [] s0' (a & s4 & Ha & Hp)%bind_Ok.
    apply random_choice_inv in Ha as [_ ->].
    apply bind_Ok in Hp as (t & s5 & Ht & Hp).
    apply Brightness_enhance_Ok in Ht as (_ & -> & ->).
    pose proof (only_canvas_paste img
                  (im_enhance a (if bool_decide (xy ∈ glowing)
                                 then 1.0%float else 0.2%float)) xy
                  (with_rng s0 (snd (randbelow (length tile_list) (rng s0))))) as Hc.
    rewrite Hp in Hc. eapply only_canvas_trans; [| exact Hc].
    by apply only_canvas_heap.
Qed.

(** ** [setup] *)

Lemma deref_alloc (h : list Image) im : deref (h ++ [im]) (length h) = im.
Proof. unfold deref. by rewrite list_lookup_middle. Qed.

(** What a [setup] that returns has done. *)
Lemma setup_inv theargs tile_list s img d_list s' :
  setup theargs tile_list s = (Ok (img, d_list), s') ->
  exists tile0 thecols therows,
    tile_list !! 0%nat = Some tile0 /\
    0 <= width theargs /\ 0 <= height theargs /\
    img = length (heap s) /\
    py_range 0 (width theargs) (fst (im_size tile0) + colsep theargs)
      = Some thecols /\
    py_range 0 (height theargs - 5 * (snd (im_size tile0) + rowsep theargs))
      (snd (im_size tile0) + rowsep theargs) = Some therows /\
    d_list = replicate (Z.to_nat (numupdators theargs))
               (TileDropper__init__ thecols therows (colsep theargs)
                  (rowsep theargs) tile_list img) /\
    length (heap s') = S (length (heap s)) /\
    im_size (deref (heap s') img) = (width theargs, height theargs) /\
    (forall r, (r < length (heap s))%nat -> heap s' !! r = heap s !! r).
Proof.
  unfold setup, canvas_setup.
  intros ([] & s1 & Hlog & H1)%bind_Ok.
  apply (logger_log_frame _ _ _ _ _ _ 0%nat) in Hlog as (_ & Hh1 & _).
  apply bind_Ok in H1 as (img0 & s2 & Hnew & H2).
  unfold Image_new in Hnew. cbn [fst snd] in Hnew.
  destruct (Z.ltb_spec (width theargs) 0) as [| HW]; [discriminate |].
  destruct (Z.ltb_spec (height theargs) 0) as [| HH]; [discriminate |].
  simpl in Hnew. injection Hnew as <- <-.
  apply bind_Ok in H2 as (img1 & s3 & Hfill & H3).
  assert (Hc : only_canvas (length (heap s1))
                 (mkState (heap s1 ++ [im_new (width theargs, height theargs)])
                    (rng s1) (loglevel s1) (log s1) (outfile s1) (dirs s1)) s3).
  { destruct (prefill theargs).
    - by apply randomly_fill_image_frame in Hfill as [_ ?].
    - injection Hfill as _ <-. apply only_canvas_refl. }
  destruct Hc as (Hlen & Hother & Hsize). simpl in Hlen, Hother, Hsize.
  rewrite deref_alloc, im_size_new in Hsize by done.
  apply bind_Ok in H3 as (tile0 & s4 & [Ht0 ->]%index_Ok & H4).
  apply bind_Ok in H4 as (size & s5 & Hsz & H5).
  unfold Image_size in Hsz. injection Hsz as <- <-. rewrite Hsize in H5.
  cbn [fst snd] in H5.
  apply bind_Ok in H5 as (thecols & s6 & [Hcols ->]%range_Ok & H6).
  apply bind_Ok in H6 as (tile0' & s7 & [Ht0' ->]%index_Ok & H7).
  rewrite Ht0 in Ht0'. injection Ht0' as <-.
  apply bind_Ok in H7 as (size' & s8 & Hsz & H8).
  unfold Image_size in Hsz. injection Hsz as <- <-. rewrite Hsize in H8.
  cbn [fst snd] in H8.
  apply bind_Ok in H8 as (therows & s9 & [Hrows ->]%range_Ok & H9).
  apply bind_Ok in H9 as (tdss & s10 & Htds & H10).
  rewrite range_unit in Htds. injection Htds as <- <-.
  apply bind_Ok in H10 as (dl & s11 & Hdl & [= <- <- <-]).
  rewrite for_acc_replicate in Hdl. injection Hdl as <- <-.
  exists tile0, thecols, therows. rewrite Hh1 in *.
  repeat split; try done.
  - by rewrite length_fmap, length_seq.
  - rewrite Hlen, length_app. simpl. lia.
  - intros r Hr. rewrite Hother by lia. by rewrite lookup_app_l.
Qed.

(** ** The frame loop *)

Lemma same_setup_refl self : same_setup self self.
Proof. by repeat split. Qed.

Lemma same_setup_trans d1 d2 d3 :
  same_setup d1 d2 -> same_setup d2 d3 -> same_setup d1 d3.
Proof.
  unfold same_setup. intros H1 H2.
  destruct_and!. repeat split; congruence.
Qed.

Lemma Forall2_same_setup_trans l1 l2 l3 :
  Forall2 same_setup l1 l2 -> Forall2 same_setup l2 l3 ->
  Forall2 same_setup l1 l3.
Proof.
  intros H12. revert l3. induction H12; intros l3 H23; inversion H23; subst.
  - constructor.
  - constructor; [eapply same_setup_trans; eauto | eauto].
Qed.

Lemma Forall2_same_setup_img img l l' :
  Forall2 same_setup l l' ->
  Forall (fun d => _img d = img) l -> Forall (fun d => _img d = img) l'.
Proof.
  induction 1 as [| d d' l l' Hd _ IH]; intros Hl; [constructor |].
  inversion Hl; subst. constructor; [| by apply IH].
  destruct Hd as (_ & _ & _ & -> & _). reflexivity.
Qed.

Lemma for_each_drop img d_list s d_list' s' :
  Forall (fun d => _img d = img) d_list ->
  for_each d_list drop_tile s = (Ok d_list', s') ->
  Forall2 same_setup d_list d_list' /\ only_canvas img s s'.
Proof.
  apply (for_each_inv (fun d => _img d = img) same_setup (only_canvas img)).
  - apply only_canvas_refl.
  - apply only_canvas_trans.
  - intros d s0 d' s0' <- Hd. by apply drop_tile_frame.
Qed.

(** One frame: the droppers keep their setup, a new object is allocated at
    the end of the heap with the pixels the canvas has after the drops, and
    every object that is not the canvas is left as it was. *)
Lemma frame_inv img x d_list img_list s d_list' img_list' s' :
  frame img x (d_list, img_list) s = (Ok (d_list', img_list'), s') ->
  Forall (fun d => _img d = img) d_list ->
  (img < length (heap s))%nat ->
  Forall2 same_setup d_list d_list' /\
  img_list' = img_list ++ [length (heap s)] /\
  length (heap s') = S (length (heap s)) /\
  (forall r, (r < length (heap s))%nat -> r <> img ->
     heap s' !! r = heap s !! r) /\
  heap s' !! length (heap s) = Some (deref (heap s') img).
Proof.
  unfold frame.
  intros ([] & s1 & Hlog & (dl & s2 & Hd & (r & s3 & Hc & [= <- <- <-])%bind_Ok)%bind_Ok)%bind_Ok
         Himg Hlt.
  apply (logger_log_frame _ _ _ _ _ _ img) in Hlog as (_ & _ & Hc1).
  apply (for_each_drop img) in Hd as [Hsame Hc2]; [| done].
  pose proof (only_canvas_trans _ _ _ _ Hc1 Hc2) as (Hlen & Hother & _).
  unfold Image_copy, alloc in Hc. injection Hc as <- <-. simpl.
  rewrite Hlen. repeat split; try done.
  - rewrite length_app. simpl. lia.
  - intros r0 Hr0 Hne. rewrite lookup_app_l by lia. by apply Hother.
  - rewrite <- Hlen, list_lookup_middle by done. f_equal.
    unfold deref. by rewrite lookup_app_l by lia.
Qed.

Lemma Forall2_same_setup_refl l : Forall2 same_setup l l.
Proof. induction l; constructor; [apply same_setup_refl | done]. Qed.

Lemma frames_loop img xs d_list img_list s d_list' img_list' s' :
  for_acc xs (d_list, img_list) (frame img) s = (Ok (d_list', img_list'), s') ->
  Forall (fun d => _img d = img) d_list ->
  (img < length (heap s))%nat ->
  Forall2 same_setup d_list d_list' /\
  img_list' = img_list ++ seq (length (heap s)) (length xs) /\
  length (heap s') = (length (heap s) + length xs)%nat /\
  (forall r, (r < length (heap s))%nat -> r <> img ->
     heap s' !! r = heap s !! r) /\
  (xs <> [] ->
   heap s' !! pred (length (heap s')) = Some (deref (heap s') img)).
Proof.
  revert d_list img_list s.
  induction xs as [| x xs IH]; intros d_list img_list s; simpl.
  - intros [= <- <- <-] _ _. rewrite app_nil_r, Nat.add_0_r.
    repeat split; try done. apply Forall2_same_setup_refl.
  - intros ([dl1 il1] & s1 & H1 & H2)%bind_Ok Himg Hlt.
    apply frame_inv in H1 as (Hs1 & -> & Hlen1 & Hother1 & Hsnap1); try done.
    pose proof H2 as H2'.
    apply IH in H2 as (Hs2 & -> & Hlen2 & Hother2 & Hsnap2).
    + split; [eapply Forall2_same_setup_trans; eauto |].
      split; [rewrite <- app_assoc, Hlen1; reflexivity |].
      split; [lia |].
      split.
      * intros r Hr Hne. rewrite Hother2 by (done || lia). by apply Hother1.
      * intros _. destruct xs as [| x' xs].
        -- simpl in H2'. injection H2' as _ _ <-.
           by rewrite Hlen1.
        -- by apply Hsnap2.
    + eapply Forall2_same_setup_img; eauto.
    + lia.
Qed.

Lemma frames_eq theargs img d_list s :
  frames theargs img d_list s =
  for_acc (Z.of_nat <$> seq 0 (Z.to_nat (numframes theargs))) (d_list, [])
    (frame img) s.
Proof. unfold frames. by rewrite (bind_eq _ _ _ _ _ (range_unit _ _ _)). Qed.

(** C9: the frame sequence is a list of snapshots that later steps do not
    touch.  In a run whose setup and frame loop return, there is one
    snapshot per frame; the snapshot of step [i] is an object other than the
    canvas; at the end of step [i] (the loop run for [i + 1] frames from the
    same state) it holds exactly the pixels the canvas has at that instant;
    and when the whole loop has ended it still holds those pixels, whatever
    the later steps pasted on the canvas. *)
Theorem snapshots_are_frozen theargs tile_list s img d_list s0 d_list' img_list s1 :
  setup theargs tile_list s = (Ok (img, d_list), s0) ->
  frames theargs img d_list s0 = (Ok (d_list', img_list), s1) ->
  length img_list = Z.to_nat (numframes theargs) /\
  forall (i : nat) (r : nat),
    img_list !! i = Some r ->
    r <> img /\
    exists d_list_i img_list_i s_i,
      frames (with_numframes theargs (Z.of_nat (S i))) img d_list s0
        = (Ok (d_list_i, img_list_i), s_i) /\
      length img_list_i = S i /\
      img_list_i !! i = Some r /\
      deref (heap s_i) r = deref (heap s_i) img /\
      deref (heap s1) r = deref (heap s_i) img.
Proof.
  intros (t0 & cols & rows & _ & _ & _ & Himg & _ & _ & Hdl & Hlen0 & _)%setup_inv
         Hf.
  assert (Hlt : (img < length (heap s0))%nat) by lia.
  assert (Hall : Forall (fun d => _img d = img) d_list).
  { subst d_list. by apply Forall_replicate. }
  rewrite frames_eq in Hf. set (n := Z.to_nat (numframes theargs)) in *.
  pose proof Hf as Hwhole.
  apply frames_loop in Hwhole as (_ & Hil & _ & _ & _); [| done | done].
  rewrite length_fmap, length_seq in Hil. simpl in Hil.
  split; [by rewrite Hil, length_seq |].
  intros i r Hi.
  assert (Hin : (i < n)%nat).
  { apply lookup_lt_Some in Hi. by rewrite Hil, length_seq in Hi. }
  assert (Hr : r = (length (heap s0) + i)%nat).
  { rewrite Hil, lookup_seq_lt in Hi by done. congruence. }
  split; [lia |].
  replace n with (S i + (n - S i))%nat in Hf by lia.
  rewrite seq_app, fmap_app, for_acc_app in Hf.
  apply bind_Ok in Hf as ([dl_i il_i] & s_i & Hpre & Hrest).
  exists dl_i, il_i, s_i.
  rewrite frames_eq. cbn [numframes with_numframes]. rewrite Nat2Z.id.
  split; [exact Hpre |].
  pose proof Hpre as Hp.
  apply frames_loop in Hp as (Hsame & -> & Hlen_i & _ & Hsnap); [| done | done].
  rewrite length_fmap, length_seq in Hlen_i.
  rewrite length_fmap, length_seq.
  specialize (Hsnap ltac:(done)). rewrite Hlen_i in Hsnap.
  replace (pred (length (heap s0) + S i)) with r in Hsnap by lia.
  rewrite !app_nil_l, length_seq.
  split; [done |]. split; [rewrite lookup_seq_lt by lia; congruence |].
  assert (E : deref (heap s_i) r = deref (heap s_i) img).
  { unfold deref at 1. by rewrite Hsnap. }
  split; [exact E |]. rewrite <- E.
  apply frames_loop in Hrest as (_ & _ & _ & Hother & _).
  - unfold deref. rewrite Hother by lia. reflexivity.
  - eapply Forall2_same_setup_img; eauto.
  - lia.
Qed.

(** C7 (as amended): the anchor grid of a [setup] that returns.  With [tw]
    by [th] the size of the first tile, neither pitch [tw + colsep] nor
    [th + rowsep] is zero.  For a positive column pitch the column anchors
    are the multiples of it in [0, width), in increasing order, and for a
    negative one there is none; for a positive row pitch the row anchors
    are the multiples of it in [0, height - 5 * (th + rowsep)), in
    increasing order, and for a negative one there is none.  Every dropper
    [setup] builds holds these two lists, and every dropper still holds them
    after the frame loop. *)
Theorem anchor_grid theargs tile_list tile0 s img d_list s0 :
  setup theargs tile_list s = (Ok (img, d_list), s0) ->
  tile_list !! 0%nat = Some tile0 ->
  fst (im_size tile0) + colsep theargs <> 0 /\
  snd (im_size tile0) + rowsep theargs <> 0 /\
  exists thecols therows,
    (0 < fst (im_size tile0) + colsep theargs ->
     (forall x, x ∈ thecols <->
        0 <= x < width theargs /\ (fst (im_size tile0) + colsep theargs | x)) /\
     StronglySorted Z.lt thecols) /\
    (fst (im_size tile0) + colsep theargs < 0 -> thecols = []) /\
    (0 < snd (im_size tile0) + rowsep theargs ->
     (forall y, y ∈ therows <->
        0 <= y < height theargs - 5 * (snd (im_size tile0) + rowsep theargs) /\
        (snd (im_size tile0) + rowsep theargs | y)) /\
     StronglySorted Z.lt therows) /\
    (snd (im_size tile0) + rowsep theargs < 0 -> therows = []) /\
    length d_list = Z.to_nat (numupdators theargs) /\
    Forall (fun d => _thecols d = thecols /\ _therows d = therows) d_list /\
    forall d_list' img_list s1,
      frames theargs img d_list s0 = (Ok (d_list', img_list), s1) ->
      Forall (fun d => _thecols d = thecols /\ _therows d = therows) d_list'.
Proof.
  intros (t0 & cols & rows & Ht0 & HW & HH & Himg & Hcols & Hrows & Hdl
          & Hlen0 & _)%setup_inv Ht.
  rewrite Ht in Ht0. injection Ht0 as <-.
  assert (Hcw : fst (im_size tile0) + colsep theargs <> 0).
  { intros E. rewrite E in Hcols. discriminate. }
  assert (Hrw : snd (im_size tile0) + rowsep theargs <> 0).
  { intros E. rewrite E in Hrows. discriminate. }
  split; [exact Hcw |]. split; [exact Hrw |].
  exists cols, rows.
  assert (Hgrid : Forall (fun d => _thecols d = cols /\ _therows d = rows) d_list).
  { subst d_list. by apply Forall_replicate. }
  split.
  { intros Hpos.
    destruct (py_range_pos (width theargs) _ Hpos) as (cols' & Ec & Hcm & Hcs).
    rewrite Ec in Hcols. by injection Hcols as ->. }
  split.
  { intros Hneg. destruct cols as [| c cols']; [done |].
    destruct (py_range_nonempty _ _ _ Hcols ltac:(done) HW). lia. }
  split.
  { intros Hpos.
    destruct (py_range_pos (height theargs
                            - 5 * (snd (im_size tile0) + rowsep theargs)) _ Hpos)
      as (rows' & Er & Hrm & Hrs).
    rewrite Er in Hrows. by injection Hrows as ->. }
  split.
  { intros Hneg. destruct rows as [| r rows']; [done |].
    destruct (py_range_nonempty _ _ _ Hrows ltac:(done) ltac:(lia)). lia. }
  split; [subst d_list; by rewrite length_replicate |].
  split; [exact Hgrid |].
  - intros dl il s1 Hf. rewrite frames_eq in Hf.
    apply frames_loop in Hf as (Hsame & _).
    + clear - Hsame Hgrid. induction Hsame as [| d d' l l' Hd _ IH].
      * constructor.
      * inversion Hgrid as [| ? ? [Hc Hr] Hl]; subst.
        constructor; [| by apply IH].
        destruct Hd as (_ & _ & _ & _ & -> & -> & _). done.
    + subst d_list. by apply Forall_replicate.
    + lia.
Qed.

(** The droppers [setup] builds are unset, well formed, and their row
    anchors lie above the canvas bottom: what the drop of an unset dropper
    is stated for. *)
Lemma setup_droppers_ready theargs tile_list tile0 s img d_list s0 :
  setup theargs tile_list s = (Ok (img, d_list), s0) ->
  tile_list !! 0%nat = Some tile0 ->
  0 < snd (im_size tile0) + rowsep theargs ->
  Forall (fun d => _curloc d = None /\ wf_dropper d /\
                   _tile_list d = tile_list /\
                   Forall (fun y => y < canvas_height d s0) (_therows d))
         d_list.
Proof.
  intros (t0 & cols & rows & Ht0 & _ & _ & Himg & _ & Hrows & -> & _ & Hsize & _)%setup_inv
         Ht Hrw.
  rewrite Ht in Ht0. injection Ht0 as <-.
  destruct (py_range_pos (height theargs
                          - 5 * (snd (im_size tile0) + rowsep theargs)) _ Hrw)
    as (rows' & Er & Hrm & _).
  rewrite Er in Hrows. injection Hrows as ->.
  apply Forall_replicate.
  split; [reflexivity |]. split; [apply wf_dropper_init |].
  split; [reflexivity |].
  apply Forall_forall. intros y Hy. apply Hrm in Hy.
  unfold canvas_height. cbn [_img TileDropper__init__]. rewrite Hsize.
  cbn [snd]. lia.
Qed.

(** ** [run] and [main] *)

(** A [setup] without pre-fill, on a tile list with a first tile and a
    canvas size Pillow accepts, returns when the two [range] calls do. *)
Lemma setup_no_prefill theargs tile_list tile0 thecols therows s :
  prefill theargs = false ->
  tile_list !! 0%nat = Some tile0 ->
  0 <= width theargs -> 0 <= height theargs ->
  py_range 0 (width theargs) (fst (im_size tile0) + colsep theargs)
    = Some thecols ->
  py_range 0 (height theargs - 5 * (snd (im_size tile0) + rowsep theargs))
    (snd (im_size tile0) + rowsep theargs) = Some therows ->
  setup theargs tile_list s =
  (Ok (length (heap s),
       replicate (Z.to_nat (numupdators theargs))
         (TileDropper__init__ thecols therows (colsep theargs)
            (rowsep theargs) tile_list (length (heap s)))),
   with_heap
     (snd (logger_log INFO
             ("Got " ++ pretty (length tile_list) ++ " image tiles")%string
             None s))
     (heap s ++ [im_new (width theargs, height theargs)])).
Proof.
  intros Hpre Ht0 HW HH Hcols Hrows. unfold setup, canvas_setup.
  rewrite (bind_eq _ _ _ _ _ (logger_log_eq _ _ _ _)).
  set (s1 := if loglevel s <=? INFO then _ else s).
  assert (Hh1 : heap s1 = heap s) by (unfold s1; by destruct (_ <=? _)).
  unfold Image_new. cbn [fst snd].
  destruct (Z.ltb_spec (width theargs) 0) as [| _]; [lia |].
  destruct (Z.ltb_spec (height theargs) 0) as [| _]; [lia |].
  cbn [orb]. unfold bind at 1, alloc. rewrite Hpre.
  unfold bind at 1, ret at 1.
  unfold bind at 1, index at 1. rewrite Ht0. unfold ret at 1.
  unfold bind at 1, Image_size at 1. cbn [heap].
  rewrite deref_alloc, im_size_new by done. cbn [fst snd].
  unfold bind at 1, range at 1. rewrite Hcols. unfold ret at 1.
  unfold bind at 1, index at 1. rewrite Ht0. unfold ret at 1.
  unfold bind at 1, Image_size at 1. cbn [heap].
  rewrite deref_alloc, im_size_new by done. cbn [fst snd].
  unfold bind at 1, range at 1. rewrite Hrows. unfold ret at 1.
  rewrite (bind_eq _ _ _ _ _ (range_unit _ _ _)).
  rewrite (bind_eq _ _ _ _ _ (for_acc_replicate _ _ _ _)).
  rewrite length_fmap, length_seq, Hh1. reflexivity.
Qed.

Lemma drop_tile_no_rows self s :
  _curloc self = None -> _thecols self <> [] -> _therows self = [] ->
  drop_tile self s =
  (Raise (IndexError 125),
   with_rng s (snd (randbelow (length (_thecols self)) (rng s)))).
Proof.
  intros Hcur Hc Hr. unfold drop_tile. rewrite Hcur.
  by rewrite (bind_Raise _ _ _ _ _ (update_location_no_rows _ _ Hc Hr)).
Qed.


(** C1: a run that is asked for no frame.  Once the logging setup and
    [setup] have returned, the frame loop does nothing and leaves the frame
    list empty; [run] then raises the [IndexError] of line 241, where it
    takes element 0 of that list; [main] hands the exception to the logger
    and exits with status 2. *)
Theorem no_frames_index_error theargs tile_list s sl img d_list s0 :
  numframes theargs <= 0 ->
  _setup_logging theargs s = (Ok tt, sl) ->
  setup theargs tile_list sl = (Ok (img, d_list), s0) ->
  frames theargs img d_list s0 = (Ok (d_list, []), s0) /\
  run theargs tile_list sl = (Raise (IndexError 241), s0) /\
  main theargs tile_list s =
  (2, snd (logger_log ERROR "Caught exception" (Some (IndexError 241)) s0)).
Proof.
  intros Hn Hl Hs.
  assert (Hf : frames theargs img d_list s0 = (Ok (d_list, []), s0)).
  { rewrite frames_eq. replace (Z.to_nat (numframes theargs)) with 0%nat by lia.
    reflexivity. }
  assert (Hr : run theargs tile_list sl = (Raise (IndexError 241), s0)).
  { unfold run. rewrite (bind_eq _ _ _ _ _ Hs), (bind_eq _ _ _ _ _ Hf).
    reflexivity. }
  split; [exact Hf |]. split; [exact Hr |].
  unfold main. by rewrite (bind_eq _ _ _ _ _ Hl), Hr.
Qed.

Lemma main_Raise theargs tile_list s sl e sf :
  _setup_logging theargs s = (Ok tt, sl) ->
  run theargs tile_list sl = (Raise e, sf) ->
  main theargs tile_list s =
  (2, snd (logger_log ERROR "Caught exception" (Some e) sf)).
Proof. intros Hl Hr. unfold main. by rewrite (bind_eq _ _ _ _ _ Hl), Hr. Qed.

(** A first frame whose first dropper raises ends the frame loop. *)
Lemma frames_first_drop_raises theargs img d d_list s e s' :
  0 < numframes theargs ->
  drop_tile d (snd (logger_log DEBUG "Step 0" None s)) = (Raise e, s') ->
  frames theargs img (d :: d_list) s = (Raise e, s').
Proof.
  intros Hn Hd. rewrite frames_eq.
  destruct (Z.to_nat (numframes theargs)) as [| n] eqn:En; [lia |].
  cbn [seq fmap list_fmap for_acc]. unfold bind at 1, frame.
  rewrite (bind_eq _ _ _ _ _ (logger_log_eq _ _ _ _)).
  change (if loglevel s <=? DEBUG then _ else s)
    with (snd (logger_log DEBUG "Step 0" None s)).
  cbn [for_each]. by rewrite (bind_Raise _ _ _ _ _ (bind_Raise _ _ _ _ _ Hd)).
Qed.

(** C2 (as amended): the boundary scenario, 16 by 16 tiles on a 64 by 64
    canvas with no separation, one dropper, ten frames, at verbosity [v].
    The grid has the 4 column anchors 0, 16, 32, 48 and no row anchor; the
    first drop raises the [IndexError] of line 125 (a choice from the empty
    row list); [run] lets it through and [main] exits with status 2.  The
    exception reaches the log only from verbosity 1 on: at verbosity 0 the
    logger lets nothing below CRITICAL through and the log stays empty. *)
Theorem empty_row_grid_exit (v : Z) tile_list g :
  length tile_list = 4%nat ->
  Forall (fun t => im_size t = (16, 16)) tile_list ->
  let theargs := with_verbose args64 v in
  let sl := snd (_setup_logging theargs (initial_state g)) in
  exists s0,
    setup theargs tile_list sl =
      (Ok (0%nat, [TileDropper__init__ [0; 16; 32; 48] [] 0 0 tile_list 0%nat]),
       s0) /\
    fst (run theargs tile_list sl) = Raise (IndexError 125) /\
    fst (main theargs tile_list (initial_state g)) = 2 /\
    log (snd (main theargs tile_list (initial_state g))) =
      (if 3 <=? v then [mkLogRecord INFO "Got 4 image tiles" None] else []) ++
      (if 4 <=? v then [mkLogRecord DEBUG "Step 0" None] else []) ++
      (if 1 <=? v
       then [mkLogRecord ERROR "Caught exception" (Some (IndexError 125))]
       else []).
Proof.
  intros Hlen Hsize theargs sl.
  destruct tile_list as [| t0 tl]; [discriminate |].
  assert (Ht0 : im_size t0 = (16, 16)) by (by inversion Hsize).
  pose proof (setup_no_prefill theargs (t0 :: tl) t0 [0; 16; 32; 48] [] sl
                eq_refl eq_refl ltac:(done) ltac:(done)) as Hs.
  rewrite Ht0 in Hs. specialize (Hs eq_refl eq_refl).
  cbn [heap sl _setup_logging logconf theargs with_verbose args64 setLevel snd
       initial_state length numupdators colsep rowsep width height] in Hs.
  change (Z.to_nat 1) with 1%nat in Hs. cbn [replicate app] in Hs.
  eexists. split; [exact Hs |].
  eassert (Hr : run theargs (t0 :: tl) sl = (Raise (IndexError 125), _)).
  { unfold run. unfold sl at 1. cbn [_setup_logging logconf theargs with_verbose
      args64 setLevel snd]. rewrite (bind_eq _ _ _ _ _ Hs).
    eapply bind_Raise, frames_first_drop_raises; [done |].
    by apply drop_tile_no_rows. }
  split; [by rewrite Hr |].
  rewrite (main_Raise theargs (t0 :: tl) (initial_state g) sl _ _ eq_refl Hr).
  split; [reflexivity |].
  cbn [snd]. rewrite !logger_log_eq. cbn [snd].
  assert (length tl = 3%nat) as -> by (simpl in Hlen; lia).
  unfold with_heap, with_rng, INFO, DEBUG, ERROR.
  cbn [loglevel log heap rng outfile initial_state theargs verbose with_verbose].
  destruct (Z.leb_spec (50 - 10 * v) 20), (Z.leb_spec 3 v); try lia;
    cbn [loglevel log heap rng outfile];
    destruct (Z.leb_spec (50 - 10 * v) 10), (Z.leb_spec 4 v); try lia;
    cbn [loglevel log heap rng outfile];
    destruct (Z.leb_spec (50 - 10 * v) 40), (Z.leb_spec 1 v); try lia;
    reflexivity.
Qed.

(** ** The pre-fill *)

Lemma for_acc_fmap {A B S} (f : A -> B) (l : list A) (acc : S)
    (body : B -> S -> M S) s :
  for_acc (f <$> l) acc body s = for_acc l acc (fun x => body (f x)) s.
Proof.
  revert acc s. induction l as [| x l IH]; intros acc s; [reflexivity |].
  cbn [fmap list_fmap for_acc]. unfold bind.
  destruct (body (f x) acc s) as [[acc' | e] s1]; [apply IH | reflexivity].
Qed.

Lemma grid_loop_cells {S} theargs lx ly (acc : S) cell xs ys s :
  py_range 0 (width theargs) (colsep theargs + 16) = Some xs ->
  py_range 0 (height theargs) (rowsep theargs + 16) = Some ys ->
  grid_loop theargs lx ly acc cell s = for_acc (cells xs ys) acc cell s.
Proof.
  intros Hxs Hys. unfold grid_loop, range at 1. rewrite Hxs.
  unfold bind at 1, ret at 1. clear Hxs. unfold cells.
  revert acc s. induction xs as [| x xs IH]; intros acc s; [reflexivity |].
  rewrite bind_cons, for_acc_app. cbn [for_acc].
  apply bind_congr; [| intros; apply IH].
  unfold bind, range. rewrite Hys. unfold ret. by rewrite for_acc_fmap.
Qed.

Lemma elem_of_cells xs ys x y : (x, y) ∈ cells xs ys <-> x ∈ xs /\ y ∈ ys.
Proof.
  unfold cells. rewrite list_elem_of_bind. split.
  - intros (x' & Hy & Hx). apply list_elem_of_fmap in Hy as (y' & [= -> ->] & Hy).
    done.
  - intros [Hx Hy]. exists x. split; [| done].
    apply list_elem_of_fmap. by exists y.
Qed.

(** The second pass: one paste per cell, in order, each of a tile of the
    tile list. *)
Lemma prefill_pastes img tile_list glowing cs s :
  tile_list <> [] ->
  blendable tile_list ->
  exists chosen s',
    for_acc cs tt (fun xy _ =>
      let* a_tile := random_choice tile_list 189 in
      let brightness_value :=
        if bool_decide (xy ∈ glowing) then 1.0%float else 0.2%float in
      let* bright := Brightness_enhance a_tile brightness_value 193 in
      Image_paste img bright xy) s = (Ok tt, s') /\
    length chosen = length cs /\
    Forall (fun t => t ∈ tile_list) chosen /\
    heap s' = <[img := composite (deref (heap s) img)
                         (zip_with (prefill_op glowing) cs chosen)]> (heap s).
Proof.
  intros Htl Hbl. revert s. induction cs as [| xy cs IH]; intros s.
  - exists [], s. repeat split; try done.
    unfold composite. simpl. by rewrite heap_write_id.
  - destruct (random_choice_Ok tile_list 189 s Htl) as (a & Ha & Ea).
    cbn [for_acc]. unfold bind at 1 2. rewrite Ea.
    unfold bind at 1, Brightness_enhance.
    rewrite (blendable_elem _ _ Hbl Ha). unfold ret at 1.
    unfold Image_paste at 1.
    match goal with |- context [for_acc cs tt _ ?s1] =>
      destruct (IH s1) as (chosen & s' & Hloop & Hlen & Hall & Hheap) end.
    exists (a :: chosen), s'. split; [exact Hloop |].
    split; [simpl; congruence |]. split; [by constructor |].
    rewrite Hheap. cbn [heap with_rng].
    rewrite (heap_write_write (heap s) img _ (fun c => composite c _)).
    reflexivity.
Qed.




Lemma cells_nil_r xs : cells xs [] = [].
Proof.
  unfold cells. induction xs as [| x xs IH]; [done |]. by rewrite bind_cons.
Qed.

Lemma random_choices_nil {A} k ln s :
  random_choices (@nil A) (S k) ln s
    = (Raise (IndexError ln), with_rng s (snd (randfloor 0 (rng s)))).
Proof.
  cbn [random_choices]. unfold bind, draw, with_rng. cbn [length].
  by destruct (randfloor 0 (rng s)) as [i g'].
Qed.




End Program.


(** * The properties on concrete runs *)

Definition s_init : @State Raster Z := initial_state 42.


(** A state with an 8 by 24 canvas at reference 0. *)
Definition s_small : @State Raster Z :=
  {| heap := [raster_new (8, 24)]; rng := 42; loglevel := 50; log := [];
     outfile := None; dirs := [] |}.

(** A dropper on that canvas, as constructed, and the same dropper at the
    location (3, 6). *)
Definition d_small : @TileDropper Raster :=
  TileDropper__init__ [0; 3; 6] [0; 3; 6] 1 1 tiles2 0%nat.

Definition d_active : @TileDropper Raster := set_curloc d_small (Some (3, 6)).

Lemma no_frames_index_error_witness :
  numframes (with_numframes args_small 0) <= 0 /\
  fst (main (with_numframes args_small 0) tiles2 s_init) = 2.
Proof.
  split; [simpl; lia |].
  destruct (_setup_logging (with_numframes args_small 0) s_init)
    as [[[] | e] sl] eqn:El; [| vm_compute in El; discriminate].
  destruct (setup (with_numframes args_small 0) tiles2 sl)
    as [[[img d_list] | e] s0] eqn:Es.
  - destruct (no_frames_index_error (with_numframes args_small 0) tiles2
                s_init sl img d_list s0 ltac:(simpl; lia) El Es)
      as (_ & _ & Hm).
    rewrite Hm. reflexivity.
  - vm_compute in El. injection El as <-. vm_compute in Es. discriminate.
Defined.

(** At the default verbosity the boundary scenario exits with status 2 and
    an empty log. *)
Lemma default_verbosity_logs_nothing :
  fst (main args64 tiles4 s_init) = 2 /\
  log (snd (main args64 tiles4 s_init)) = [].
Proof. vm_compute. split; reflexivity. Qed.

Lemma empty_row_grid_exit_witness :
  length tiles4 = 4%nat /\
  Forall (fun t => im_size t = (16, 16)) tiles4 /\
  fst (main (with_verbose args64 1) tiles4 s_init) = 2 /\
  log (snd (main (with_verbose args64 1) tiles4 s_init)) =
    [mkLogRecord ERROR "Caught exception" (Some (IndexError 125))].
Proof.
  assert (H4 : Forall (fun t : Raster => im_size t = (16, 16)) tiles4)
    by (repeat constructor).
  split; [reflexivity |]. split; [exact H4 |].
  pose proof (empty_row_grid_exit 1 tiles4 42 eq_refl H4) as H.
  cbv zeta in H. destruct H as (s0 & _ & _ & Hm & Hlog).
  split; [exact Hm | exact Hlog].
Defined.












Lemma history_never_exceeds_five_witness :
  exists self' s',
    drop_n 7 d_small s_small = (Ok self', s') /\
    reachable (G:=Z) self' /\
    (length (deque.items (_prev_tiles self')) <= 5)%nat.
Proof.
  destruct (drop_n 7 d_small s_small) as [[self' | e] s'] eqn:E;
    [| vm_compute in E; discriminate].
  assert (Hr : reachable (G:=Z) self').
  { eapply reachable_drop_n; [| exact E]. apply reach_init. }
  exists self', s'. split; [reflexivity |]. split; [exact Hr |].
  exact (proj1 (history_never_exceeds_five (G:=Z) self' Hr)).
Defined.

Lemma anchor_grid_witness :
  tiles2 !! 0%nat = Some (flat_tile 2 2 10%float) /\
  exists img d_list s0 thecols therows,
    setup args_small tiles2 s_init = (Ok (img, d_list), s0) /\
    (forall x, x ∈ thecols <-> 0 <= x < width args_small /\ (3 | x)) /\
    length d_list = Z.to_nat (numupdators args_small) /\
    Forall (fun d => _thecols d = thecols /\ _therows d = therows) d_list.
Proof.
  split; [reflexivity |].
  destruct (setup args_small tiles2 s_init) as [[[img d_list] | e] s0] eqn:E;
    [| vm_compute in E; discriminate].
  destruct (anchor_grid args_small tiles2 (flat_tile 2 2 10%float) s_init
              img d_list s0 E eq_refl)
    as (_ & _ & cols & rows & Hc & _ & _ & _ & Hlen & Hall & _).
  destruct (Hc ltac:(simpl; lia)) as [Hcm _].
  exists img, d_list, s0, cols, rows. auto.
Defined.

(** With a column separation of -5 and 2 pixel tiles the column pitch is
    -3: [setup] returns droppers without a column anchor, although 3 is a
    multiple of the pitch in [0, width). *)
Lemma negative_pitch_empties_grid :
  fst (setup args_negative_pitch tiles2 s_init)
    = Ok (0%nat,
          replicate 2
            (TileDropper__init__ [] [0; 3; 6] (-5) 1 tiles2 0%nat)) /\
  0 <= 3 < width args_negative_pitch /\
  (fst (im_size (flat_tile 2 2 10%float)) + colsep args_negative_pitch | 3).
Proof.
  split; [vm_compute; reflexivity |]. split; [simpl; lia |].
  exists (-1). reflexivity.
Qed.

Lemma snapshots_are_frozen_witness :
  exists img d_list s0 d_list' img_list s1,
    setup args_small tiles2 s_init = (Ok (img, d_list), s0) /\
    frames args_small img d_list s0 = (Ok (d_list', img_list), s1) /\
    length img_list = Z.to_nat (numframes args_small).
Proof.
  destruct (setup args_small tiles2 s_init) as [[[img d_list] | e] s0] eqn:Es;
    [| vm_compute in Es; discriminate].
  destruct (frames args_small img d_list s0)
    as [[[d_list' img_list] | e] s1] eqn:Ef.
  - exists img, d_list, s0, d_list', img_list, s1.
    split; [reflexivity |]. split; [exact Ef |].
    exact (proj1 (snapshots_are_frozen args_small tiles2 s_init img d_list s0
                    d_list' img_list s1 Es Ef)).
  - vm_compute in Es. injection Es as <- <- <-. vm_compute in Ef. discriminate.
Defined.

Lemma drop_keeps_column_witness :
  _curloc d_active = Some (3, 6) /\
  exists self' s' x' y',
    drop_tile d_active s_small = (Ok self', s') /\
    _curloc self' = Some (x', y') /\
    x' = 3.
Proof.
  split; [reflexivity |].
  destruct (drop_tile d_active s_small) as [[self' | e] s'] eqn:E;
    [| vm_compute in E; discriminate].
  destruct (_curloc self') as [[x' y'] |] eqn:Ec.
  - exists self', s', x', y'. split; [reflexivity |]. split; [exact Ec |].
    exact (proj1 (drop_keeps_column d_active s_small self' s' 3 6 x' y'
                    E eq_refl Ec)).
  - vm_compute in E. injection E as <- <-. vm_compute in Ec. discriminate.
Defined.

(** * Further properties of the script *)

Section Script.
Context {Image : Type} `{!Pillow Image} {G : Type} `{!Random G}.

Notation "'let*' x ':=' m 'in' k" := (bind m (fun x => k))
  (at level 10, x pattern, m at level 100, k at level 200).

(** ** What a computation leaves alone *)

(** [m] changes neither the level of the logger nor the output file,
    whether it returns or raises. *)
Definition keeps_output {A} (m : @M Image G A) : Prop :=
  forall s, loglevel (snd (m s)) = loglevel s /\ outfile (snd (m s)) = outfile s.

Lemma keeps_ret {A} (a : A) : keeps_output (ret a).
Proof. by intros s. Qed.

Lemma keeps_raise {A} e : keeps_output (raise (A:=A) e).
Proof. by intros s. Qed.

Lemma keeps_bind {A B} (m : M A) (k : A -> M B) :
  keeps_output m -> (forall a, keeps_output (k a)) -> keeps_output (bind m k).
Proof.
  intros Hm Hk s. unfold bind. destruct (Hm s) as [Hl Ho].
  destruct (m s) as [[a | e] s1]; simpl in *.
  - destruct (Hk a s1) as [Hl' Ho']. split; congruence.
  - done.
Qed.

Lemma keeps_for_acc {A S} (l : list A) (acc : S) (body : A -> S -> M S) :
  (forall x acc, keeps_output (body x acc)) -> keeps_output (for_acc l acc body).
Proof.
  intros Hb. revert acc. induction l as [| x l IH]; intros acc; simpl.
  - apply keeps_ret.
  - apply keeps_bind; [apply Hb | apply IH].
Qed.

Lemma keeps_for_each {A} (l : list A) (f : A -> M A) :
  (forall x, keeps_output (f x)) -> keeps_output (for_each l f).
Proof.
  intros Hf. induction l as [| x l IH]; simpl.
  - apply keeps_ret.
  - apply keeps_bind; [apply Hf | intros x'].
    apply keeps_bind; [apply IH | intros l']. apply keeps_ret.
Qed.

Lemma keeps_range start stop step ln : keeps_output (range start stop step ln).
Proof.
  unfold range. destruct (py_range start stop step);
    [apply keeps_ret | apply keeps_raise].
Qed.

Lemma keeps_index {A} (l : list A) i ln : keeps_output (index l i ln).
Proof. unfold index. destruct (l !! i); [apply keeps_ret | apply keeps_raise]. Qed.

Lemma keeps_alloc im : keeps_output (alloc im).
Proof. by intros s. Qed.

Lemma keeps_Image_new size ln : keeps_output (Image_new size ln).
Proof.
  unfold Image_new. destruct (_ || _); [apply keeps_raise | apply keeps_alloc].
Qed.

Lemma keeps_Image_copy img : keeps_output (Image_copy img).
Proof. by intros s. Qed.

Lemma keeps_Image_paste img src box : keeps_output (Image_paste img src box).
Proof. by intros s. Qed.

Lemma keeps_Image_size img : keeps_output (Image_size img).
Proof. by intros s. Qed.

Lemma keeps_Brightness_enhance image factor ln :
  keeps_output (Brightness_enhance image factor ln).
Proof.
  unfold Brightness_enhance.
  destruct (im_blendable image); [apply keeps_ret | apply keeps_raise].
Qed.

Lemma keeps_logger_log level m e : keeps_output (logger_log level m e).
Proof. intros s. unfold logger_log. simpl. by destruct (_ <=? _). Qed.

Lemma keeps_draw f : keeps_output (draw f).
Proof. intros s. unfold draw. by destruct (f (rng s)). Qed.

Lemma keeps_random_choice {A} (l : list A) ln : keeps_output (random_choice l ln).
Proof.
  unfold random_choice. destruct l; [apply keeps_raise |].
  apply keeps_bind; [apply keeps_draw | intros i; apply keeps_index].
Qed.

Lemma keeps_random_choices {A} (l : list A) k ln :
  keeps_output (random_choices l k ln).
Proof.
  induction k as [| k IH]; simpl; [apply keeps_ret |].
  apply keeps_bind; [apply keeps_draw | intros i].
  apply keeps_bind; [apply keeps_index | intros x].
  apply keeps_bind; [apply IH | intros l']. apply keeps_ret.
Qed.

Ltac keeps_base :=
  first
    [ apply keeps_ret | apply keeps_raise | apply keeps_range
    | apply keeps_index | apply keeps_alloc | apply keeps_Image_new
    | apply keeps_Image_copy | apply keeps_Image_paste | apply keeps_Image_size
    | apply keeps_logger_log | apply keeps_Brightness_enhance
    | apply keeps_random_choice
    | apply keeps_random_choices ].

Ltac keeps_step := apply keeps_bind; [keeps_base | intros ?].

Lemma keeps_update_location self : keeps_output (update_location self).
Proof. unfold update_location. repeat keeps_step. keeps_base. Qed.

Lemma keeps_curloc self ln : keeps_output (curloc self ln).
Proof. unfold curloc. destruct (_curloc self); keeps_base. Qed.

Lemma keeps_paste_trail self entries counter :
  keeps_output (paste_trail self entries counter).
Proof.
  revert counter. induction entries as [| entry entries IH]; intros counter;
    simpl; [keeps_base |].
  apply keeps_bind; [apply keeps_curloc | intros loc].
  do 3 keeps_step. apply IH.
Qed.

Lemma keeps_drop_tile self : keeps_output (drop_tile self).
Proof.
  unfold drop_tile. apply keeps_bind.
  { destruct (_curloc self); [keeps_base | apply keeps_update_location]. }
  intros self1. keeps_step.
  apply keeps_bind; [apply keeps_paste_trail | intros _].
  apply keeps_bind; [apply keeps_curloc | intros loc].
  apply keeps_bind; [apply keeps_curloc | intros loc'].
  keeps_step. destruct (_ <? _); keeps_base.
Qed.

Lemma keeps_grid_loop {S} theargs lx ly (acc : S) (cell : Z * Z -> S -> M S) :
  (forall xy acc, keeps_output (cell xy acc)) ->
  keeps_output (grid_loop theargs lx ly acc cell).
Proof.
  intros Hc. unfold grid_loop. keeps_step.
  apply keeps_for_acc. intros x acc'. keeps_step.
  apply keeps_for_acc. intros y acc''. apply Hc.
Qed.

Lemma keeps_randomly_fill_image theargs img tile_list :
  keeps_output (randomly_fill_image theargs img tile_list).
Proof.
  unfold randomly_fill_image.
  apply keeps_bind; [apply keeps_grid_loop; intros; keeps_base | intros all_tiles].
  keeps_step.
  apply keeps_bind; [| intros _; keeps_base].
  apply keeps_grid_loop. intros xy []. do 2 keeps_step. keeps_base.
Qed.

Lemma keeps_setup theargs tile_list : keeps_output (setup theargs tile_list).
Proof.
  unfold setup, canvas_setup. do 2 keeps_step.
  apply keeps_bind.
  { destruct (prefill theargs); [apply keeps_randomly_fill_image | keeps_base]. }
  intros _. do 7 keeps_step.
  apply keeps_bind; [apply keeps_for_acc; intros; keeps_base | intros d_list].
  keeps_base.
Qed.

Lemma keeps_frame img x acc : keeps_output (frame img x acc).
Proof.
  unfold frame. destruct acc as [d_list img_list]. keeps_step.
  apply keeps_bind; [apply keeps_for_each, keeps_drop_tile | intros d_list'].
  keeps_step. keeps_base.
Qed.

Lemma keeps_frames theargs img d_list : keeps_output (frames theargs img d_list).
Proof.
  unfold frames. keeps_step. apply keeps_for_acc. intros. apply keeps_frame.
Qed.

Lemma keeps_trans {A} (m : M A) s r s' :
  keeps_output m -> m s = (r, s') ->
  loglevel s' = loglevel s /\ outfile s' = outfile s.
Proof. intros Hm E. specialize (Hm s). by rewrite E in Hm. Qed.

(** ** The frames a run writes *)

Lemma frame_sizes img sz x d_list img_list s d_list' img_list' s' :
  frame img x (d_list, img_list) s = (Ok (d_list', img_list'), s') ->
  Forall (fun d => _img d = img) d_list ->
  (img < length (heap s))%nat ->
  (forall r, (img <= r < length (heap s))%nat ->
     im_size (deref (heap s) r) = sz) ->
  forall r, (img <= r < length (heap s'))%nat ->
    im_size (deref (heap s') r) = sz.
Proof.
  unfold frame.
  intros ([] & s1 & Hlog & (dl & s2 & Hd & (r0 & s3 & Hc & [= <- <- <-])%bind_Ok)%bind_Ok)%bind_Ok
         Himg Hlt Hsz r Hr.
  apply (logger_log_frame _ _ _ _ _ _ img) in Hlog as (_ & _ & Hc1).
  apply (for_each_drop img) in Hd as [_ Hc2]; [| done].
  pose proof (only_canvas_trans _ _ _ _ Hc1 Hc2) as (Hlen & Hother & Hsize).
  unfold Image_copy, alloc in Hc. injection Hc as <- <-.
  cbn [heap] in Hr |- *. rewrite length_app, Hlen in Hr. simpl in Hr.
  assert (Hcanvas : im_size (deref (heap s2) img) = sz).
  { rewrite Hsize. apply Hsz. lia. }
  destruct (decide (r = length (heap s2))) as [-> | Hne].
  - by rewrite deref_alloc.
  - unfold deref. rewrite lookup_app_l by lia. fold (deref (heap s2) r).
    destruct (decide (r = img)) as [-> | Hne'].
    + exact Hcanvas.
    + unfold deref. rewrite Hother by done. apply Hsz. lia.
Qed.

Lemma frames_sizes img sz xs d_list img_list s d_list' img_list' s' :
  for_acc xs (d_list, img_list) (frame img) s = (Ok (d_list', img_list'), s') ->
  Forall (fun d => _img d = img) d_list ->
  (img < length (heap s))%nat ->
  (forall r, (img <= r < length (heap s))%nat ->
     im_size (deref (heap s) r) = sz) ->
  forall r, (img <= r < length (heap s'))%nat ->
    im_size (deref (heap s') r) = sz.
Proof.
  revert d_list img_list s. induction xs as [| x xs IH];
    intros d_list img_list s; simpl.
  - by intros [= <- <- <-].
  - intros ([dl1 il1] & s1 & H1 & H2)%bind_Ok Himg Hlt Hsz.
    pose proof (frame_sizes _ _ _ _ _ _ _ _ _ H1 Himg Hlt Hsz) as Hsz1.
    apply frame_inv in H1 as (Hs1 & _ & Hlen1 & _); try done.
    eapply IH; [exact H2 | | lia | exact Hsz1].
    eapply Forall2_same_setup_img; eauto.
Qed.


(** What a [run] that returns has done, step by step. *)
Lemma run_Ok_inv theargs tile_list s r s' :
  run theargs tile_list s = (Ok r, s') ->
  r = 0 /\
  exists img d_list s0 d_list' first rest s1,
    setup theargs tile_list s = (Ok (img, d_list), s0) /\
    frames theargs img d_list s0 = (Ok (d_list', first :: rest), s1) /\
    fst (im_save (deref (heap s1) first) (map (deref (heap s1)) rest)
           (duration theargs)) = Ok tt /\
    s' = mkState (heap s1) (rng s1) (loglevel s1) (log s1)
           (Some (snd (im_save (deref (heap s1) first)
                         (map (deref (heap s1)) rest) (duration theargs))))
           (dirs s1).
Proof.
  unfold run.
  intros ([img d_list] & s0 & Hs & ([d_list' img_list] & s1 & Hf &
          ([] & s2 & He & [= <- <-])%bind_Ok)%bind_Ok)%bind_Ok.
  split; [done |].
  unfold encode in He.
  apply bind_Ok in He as (first & s3 & [Hi ->]%index_Ok & Hsave).
  destruct img_list as [| r0 rest]; [discriminate |]. injection Hi as <-.
  exists img, d_list, s0, d_list', r0, rest, s1.
  split; [done |]. split; [done |].
  unfold Image_save in Hsave. cbn [tail] in Hsave.
  injection Hsave as Hr <-. by split.
Qed.

(** X1: a run that returns has handed all its frames to the GIF writer.
    The value returned is 0, at least one frame was asked for, and [save]
    was called, and returned, on exactly [numframes] frames, each of the
    size of the canvas, with the frame duration of the command line; the
    output file holds what the writer made of them, and the level of the
    logger is as before. *)
Theorem returned_run_wrote_all_frames theargs tile_list s r s' :
  run theargs tile_list s = (Ok r, s') ->
  r = 0 /\
  0 < numframes theargs /\
  loglevel s' = loglevel s /\
  exists first rest,
    S (length rest) = Z.to_nat (numframes theargs) /\
    Forall (fun f => im_size f = (width theargs, height theargs))
      (first :: rest) /\
    fst (im_save first rest (duration theargs)) = Ok tt /\
    outfile s' = Some (snd (im_save first rest (duration theargs))).
Proof.
  intros (-> & img & d_list & s0 & d_list' & r0 & rest & s1 & Hs & Hf & Hok
          & ->)%run_Ok_inv.
  pose proof (keeps_trans _ _ _ _ (keeps_setup theargs tile_list) Hs) as [Hl0 _].
  pose proof (keeps_trans _ _ _ _ (keeps_frames theargs img d_list) Hf) as [Hl1 _].
  apply setup_inv in Hs
    as (t0 & cols & rows & _ & _ & _ & Himg & _ & _ & Hdl & Hlen0 & Hsize & _).
  assert (Hall : Forall (fun d => _img d = img) d_list).
  { subst d_list. by apply Forall_replicate. }
  rewrite frames_eq in Hf. pose proof Hf as Hloop.
  apply frames_loop in Hloop as (_ & Hil & Hlen1 & _ & _); [| done | lia].
  rewrite length_fmap, length_seq in Hil, Hlen1. simpl in Hil.
  assert (Hn : S (length rest) = Z.to_nat (numframes theargs)).
  { change (S (length rest)) with (length (r0 :: rest)).
    by rewrite Hil, length_seq. }
  split; [done |]. split; [lia |].
  split; [cbn [loglevel]; congruence |].
  exists (deref (heap s1) r0), (map (deref (heap s1)) rest).
  split; [by rewrite length_map |]. split; [| by split].
  change (deref (heap s1) r0 :: map (deref (heap s1)) rest)
    with (map (deref (heap s1)) (r0 :: rest)).
  apply Forall_map, Forall_forall. intros r Hr. simpl.
  rewrite Hil in Hr. apply elem_of_seq in Hr.
  eapply frames_sizes; [exact Hf | exact Hall | lia | | lia].
  intros r' Hr'. replace r' with img by lia. exact Hsize.
Qed.




(** ** Runs that cannot fail *)

(** A dropper whose every drop returns: a consistent history, anchors and
    tiles to choose from, and only tiles the brightness enhancer accepts, in
    the tile list and in the history. *)
Definition ready (self : @TileDropper Image) : Prop :=
  wf_dropper self /\ _thecols self <> [] /\ _therows self <> [] /\
  _tile_list self <> [] /\ blendable (_tile_list self) /\
  blendable (deque.items (_prev_tiles self)).

Lemma drop_tile_located_ready self loc s :
  _curloc self = Some loc -> ready self ->
  exists self' s', drop_tile self s = (Ok self', s') /\ ready self'.
Proof.
  intros Hcur (Hwf & Hc & Hr & Ht & Hbt & Hbh).
  destruct (drop_tile_at self loc s Hcur Hwf Ht) as (a & Ha & Hd & _).
  assert (Hbl : blendable (push_front a (deque.items (_prev_tiles self)))).
  { apply blendable_push_front; [by apply (blendable_elem a (_tile_list self)) | done]. }
  specialize (Hd Hbl). cbv zeta in Hd.
  eexists _, _. split; [exact Hd |].
  pose proof (wf_dropper_drop _ _ _ _ Hwf Hd) as Hwf'.
  split; [exact Hwf' |]. by repeat split.
Qed.

Lemma drop_tile_ready self s :
  ready self ->
  exists self' s', drop_tile self s = (Ok self', s') /\ ready self'.
Proof.
  intros Hready. destruct (_curloc self) as [loc |] eqn:Hcur.
  - by apply (drop_tile_located_ready self loc).
  - destruct Hready as (Hwf & Hc & Hr & Ht & Hbt & Hbh).
    destruct (update_location_Ok self s Hc Hr) as (x & y & s1 & _ & _ & Hu & _).
    rewrite (drop_tile_relocate _ _ _ _ Hcur Hu).
    apply (drop_tile_located_ready _ (x, y)); [done |].
    split; [by apply (wf_dropper_update self s _ s1) |].
    repeat split; try done. by apply Forall_nil.
Qed.

Lemma for_each_ready d_list s :
  Forall ready d_list ->
  exists d_list' s',
    for_each d_list drop_tile s = (Ok d_list', s') /\ Forall ready d_list'.
Proof.
  intros Hall. revert s. induction Hall as [| d l Hd _ IH]; intros s.
  - by exists [], s.
  - destruct (drop_tile_ready d s Hd) as (d' & s1 & E1 & Hd').
    destruct (IH s1) as (l' & s2 & E2 & Hl').
    exists (d' :: l'), s2. split; [| by constructor].
    cbn [for_each]. by rewrite (bind_eq _ _ _ _ _ E1), (bind_eq _ _ _ _ _ E2).
Qed.

Lemma frames_ready img xs d_list img_list s :
  Forall ready d_list ->
  exists d_list' img_list' s',
    for_acc xs (d_list, img_list) (frame img) s = (Ok (d_list', img_list'), s').
Proof.
  revert d_list img_list s. induction xs as [| x xs IH];
    intros d_list img_list s Hall.
  - by eexists _, _, _.
  - cbn [for_acc]. unfold bind at 1, frame at 1.
    rewrite (bind_eq _ _ _ _ _ (logger_log_eq _ _ _ _)).
    match goal with |- context [bind (for_each d_list drop_tile) _ ?s1] =>
      destruct (for_each_ready d_list s1 Hall) as (dl & s2 & E & Hall') end.
    rewrite (bind_eq _ _ _ _ _ E). unfold bind at 1, Image_copy, alloc, ret.
    apply IH, Hall'.
Qed.

Lemma py_range_Some start stop step :
  step <> 0 -> exists l, py_range start stop step = Some l.
Proof.
  intros Hs. unfold py_range.
  destruct (Z.eqb_spec step 0); [done | by eexists].
Qed.

Lemma randomly_fill_image_Ok theargs img tile_list s :
  0 < colsep theargs + 16 -> 0 < rowsep theargs + 16 ->
  0 < width theargs -> 0 < height theargs -> tile_list <> [] ->
  blendable tile_list ->
  exists s', randomly_fill_image theargs img tile_list s = (Ok img, s').
Proof.
  intros Hcs Hrs HW HH Htl Hbl.
  destruct (py_range_pos (width theargs) _ Hcs) as (xs & Exs & Hxs & _).
  destruct (py_range_pos (height theargs) _ Hrs) as (ys & Eys & Hys & _).
  assert (Hne : cells xs ys <> []).
  { assert (Hin : (0, 0) ∈ cells xs ys).
    { apply elem_of_cells. split; [apply Hxs | apply Hys];
        (split; [lia | apply Z.divide_0_r]). }
    intros E. rewrite E in Hin. by apply not_elem_of_nil in Hin. }
  destruct (random_choices_Ok (cells xs ys) 24 185 s Hne) as (gl & s1 & Egl).
  destruct (prefill_pastes img tile_list gl (cells xs ys) s1 Htl Hbl)
    as (chosen & s' & Eloop & _).
  exists s'. unfold randomly_fill_image.
  rewrite (bind_eq _ _ _ _ _
             (eq_trans (grid_loop_cells _ _ _ _ _ _ _ _ Exs Eys)
                       (for_acc_collect _ _ _))).
  cbn [app]. rewrite (bind_eq _ _ _ _ _ Egl).
  by rewrite (bind_eq _ _ _ _ _
                (eq_trans (grid_loop_cells _ _ _ _ _ _ _ _ Exs Eys) Eloop)).
Qed.

(** [setup] returns on a tile list with a first tile, a canvas size Pillow
    accepts and non-zero pitches, when the pre-fill (if asked for) does. *)
Lemma setup_Ok theargs tile_list tile0 s :
  tile_list !! 0%nat = Some tile0 ->
  0 <= width theargs -> 0 <= height theargs ->
  fst (im_size tile0) + colsep theargs <> 0 ->
  snd (im_size tile0) + rowsep theargs <> 0 ->
  (prefill theargs = true ->
   forall s1, exists s2,
     randomly_fill_image theargs (length (heap s)) tile_list s1
       = (Ok (length (heap s)), s2)) ->
  exists d_list s0,
    setup theargs tile_list s = (Ok (length (heap s), d_list), s0).
Proof.
  intros Ht0 HW HH Hcw Hrw Hfill. unfold setup, canvas_setup.
  rewrite (bind_eq _ _ _ _ _ (logger_log_eq _ _ _ _)).
  set (s1 := if loglevel s <=? INFO then _ else s).
  assert (Hh1 : heap s1 = heap s) by (unfold s1; by destruct (_ <=? _)).
  unfold Image_new. cbn [fst snd].
  destruct (Z.ltb_spec (width theargs) 0) as [| _]; [lia |].
  destruct (Z.ltb_spec (height theargs) 0) as [| _]; [lia |].
  cbn [orb]. unfold bind at 1, alloc. rewrite Hh1.
  set (sb := mkState _ _ _ _ _ _).
  assert (Hpre : exists sc,
            (if prefill theargs
             then randomly_fill_image theargs (length (heap s)) tile_list
             else ret (length (heap s))) sb = (Ok (length (heap s)), sc) /\
            im_size (deref (heap sc) (length (heap s)))
              = (width theargs, height theargs)).
  { assert (Hsb : im_size (deref (heap sb) (length (heap s)))
                  = (width theargs, height theargs)).
    { unfold sb. cbn [heap]. by rewrite deref_alloc, im_size_new. }
    destruct (prefill theargs).
    - destruct (Hfill eq_refl sb) as (sc & E). exists sc. split; [done |].
      apply randomly_fill_image_frame in E as [_ (_ & _ & Hsz)]. congruence.
    - by exists sb. }
  destruct Hpre as (sc & Epre & Hsz).
  rewrite (bind_eq _ _ _ _ _ Epre).
  unfold bind at 1, index at 1. rewrite Ht0. unfold ret at 1.
  unfold bind at 1, Image_size at 1. rewrite Hsz. cbn [fst snd].
  destruct (py_range_Some 0 (width theargs) _ Hcw) as (cols & Ec).
  unfold bind at 1, range at 1. rewrite Ec. unfold ret at 1.
  unfold bind at 1, index at 1. rewrite Ht0. unfold ret at 1.
  unfold bind at 1, Image_size at 1. rewrite Hsz. cbn [fst snd].
  destruct (py_range_Some 0 (height theargs
                             - 5 * (snd (im_size tile0) + rowsep theargs)) _ Hrw)
    as (rows & Er).
  unfold bind at 1, range at 1. rewrite Er. unfold ret at 1.
  rewrite (bind_eq _ _ _ _ _ (range_unit _ _ _)).
  rewrite (bind_eq _ _ _ _ _ (for_acc_replicate _ _ _ _)).
  by eexists _, _.
Qed.

(** The frames of a run whose set-up and frame loop return: as many as
    asked for, each of the size of the canvas. *)
Lemma frames_snapshots theargs tile_list s img d_list s0 d_list' r0 rest s1 :
  setup theargs tile_list s = (Ok (img, d_list), s0) ->
  frames theargs img d_list s0 = (Ok (d_list', r0 :: rest), s1) ->
  S (length (map (deref (heap s1)) rest)) = Z.to_nat (numframes theargs) /\
  Forall (fun f => im_size f = (width theargs, height theargs))
    (deref (heap s1) r0 :: map (deref (heap s1)) rest).
Proof.
  intros Hs Hf.
  apply setup_inv in Hs
    as (t0 & cols & rows & _ & _ & _ & Himg & _ & _ & Hdl & Hlen0 & Hsize & _).
  assert (Hall : Forall (fun d => _img d = img) d_list).
  { subst d_list. by apply Forall_replicate. }
  rewrite frames_eq in Hf. pose proof Hf as Hloop.
  apply frames_loop in Hloop as (_ & Hil & Hlen1 & _ & _); [| done | lia].
  rewrite length_fmap, length_seq in Hil, Hlen1. simpl in Hil.
  assert (Hn : S (length rest) = Z.to_nat (numframes theargs)).
  { change (S (length rest)) with (length (r0 :: rest)).
    by rewrite Hil, length_seq. }
  split; [by rewrite length_map |].
  change (deref (heap s1) r0 :: map (deref (heap s1)) rest)
    with (map (deref (heap s1)) (r0 :: rest)).
  apply Forall_map, Forall_forall. intros r Hr. simpl.
  rewrite Hil in Hr. apply elem_of_seq in Hr.
  eapply frames_sizes; [exact Hf | exact Hall | lia | | lia].
  intros r' Hr'. replace r' with img by lia. exact Hsize.
Qed.

(** [run] on a sane command line and tile list: every step up to the writer
    returns, so the run ends as the writer does. *)
Lemma run_reaches_writer theargs tile_list tile0 s :
  tile_list !! 0%nat = Some tile0 ->
  blendable tile_list ->
  0 < fst (im_size tile0) + colsep theargs ->
  0 < snd (im_size tile0) + rowsep theargs ->
  0 < width theargs ->
  5 * (snd (im_size tile0) + rowsep theargs) < height theargs ->
  0 < numframes theargs ->
  (prefill theargs = true ->
   0 < colsep theargs + 16 /\ 0 < rowsep theargs + 16) ->
  exists first rest,
    S (length rest) = Z.to_nat (numframes theargs) /\
    Forall (fun f => im_size f = (width theargs, height theargs))
      (first :: rest) /\
    fst (run theargs tile_list s)
      = match fst (im_save first rest (duration theargs)) with
        | Ok _ => Ok 0
        | Raise e => Raise e
        end /\
    outfile (snd (run theargs tile_list s))
      = Some (snd (im_save first rest (duration theargs))).
Proof.
  intros Ht0 Hbl Hcw Hrw HW HH Hn Hpre.
  assert (Htl : tile_list <> []) by (intros ->; discriminate).
  destruct (setup_Ok theargs tile_list tile0 s Ht0) as (d_list & s0 & Hs);
    try lia.
  { intros Hp s1. destruct (Hpre Hp) as [H1 H2].
    apply randomly_fill_image_Ok; (done || lia). }
  pose proof Hs as Hinv.
  apply setup_inv in Hinv
    as (t0 & cols & rows & Ht0' & _ & _ & _ & Ec & Er & Hdl & Hlen0 & _).
  rewrite Ht0 in Ht0'. injection Ht0' as <-.
  destruct (py_range_pos (width theargs) _ Hcw) as (cols' & Ec' & Hcm & _).
  destruct (py_range_pos (height theargs
                          - 5 * (snd (im_size tile0) + rowsep theargs)) _ Hrw)
    as (rows' & Er' & Hrm & _).
  rewrite Ec' in Ec. injection Ec as ->. rewrite Er' in Er. injection Er as ->.
  assert (Hready : Forall ready d_list).
  { subst d_list. apply Forall_replicate. split; [apply wf_dropper_init |].
    cbn [_thecols _therows _tile_list _prev_tiles TileDropper__init__].
    split; [| split; [| split; [done | split; [done | by apply Forall_nil]]]].
    - assert (Hin : 0 ∈ cols) by (apply Hcm; split; [lia | apply Z.divide_0_r]).
      intros ->. by apply not_elem_of_nil in Hin.
    - assert (Hin : 0 ∈ rows) by (apply Hrm; split; [lia | apply Z.divide_0_r]).
      intros ->. by apply not_elem_of_nil in Hin. }
  destruct (frames_ready (length (heap s))
              (Z.of_nat <$> seq 0 (Z.to_nat (numframes theargs)))
              d_list [] s0 Hready) as (dl' & il & s1 & Hf).
  pose proof Hf as Hloop.
  apply frames_loop in Hloop as (_ & Hil & _); [| | lia].
  2:{ subst d_list. by apply Forall_replicate. }
  rewrite length_fmap, length_seq in Hil. simpl in Hil.
  destruct il as [| r0 rest].
  { destruct (Z.to_nat (numframes theargs)) eqn:E; [lia | discriminate]. }
  exists (deref (heap s1) r0), (map (deref (heap s1)) rest).
  rewrite <- frames_eq in Hf.
  destruct (frames_snapshots _ _ _ _ _ _ _ _ _ _ Hs Hf) as [Hcount Hsizes].
  split; [exact Hcount |]. split; [exact Hsizes |].
  unfold run. rewrite (bind_eq _ _ _ _ _ Hs).
  rewrite (bind_eq _ _ _ _ _ Hf).
  unfold encode, bind, index, ret, Image_save. cbn [lookup list_lookup tail].
  destruct (im_save _ _ _) as [[[] | e] w]; by cbn.
Qed.



(** ** Runs that fail in [setup] *)

(** [setup] without pre-fill, on a canvas size Pillow accepts and a tile
    list with a first tile: the two [range] calls decide. *)
Lemma setup_no_prefill_cases theargs tile_list tile0 s :
  prefill theargs = false ->
  tile_list !! 0%nat = Some tile0 ->
  0 <= width theargs -> 0 <= height theargs ->
  let sb :=
    with_heap
      (snd (logger_log INFO
              ("Got " ++ pretty (length tile_list) ++ " image tiles")%string
              None s))
      (heap s ++ [im_new (width theargs, height theargs)]) in
  setup theargs tile_list s =
  match py_range 0 (width theargs) (fst (im_size tile0) + colsep theargs) with
  | None => (Raise (ValueError 218), sb)
  | Some thecols =>
      match py_range 0
              (height theargs - 5 * (snd (im_size tile0) + rowsep theargs))
              (snd (im_size tile0) + rowsep theargs) with
      | None => (Raise (ValueError 223), sb)
      | Some therows =>
          (Ok (length (heap s),
               replicate (Z.to_nat (numupdators theargs))
                 (TileDropper__init__ thecols therows (colsep theargs)
                    (rowsep theargs) tile_list (length (heap s)))), sb)
      end
  end.
Proof.
  intros Hpre Ht0 HW HH sb.
  destruct (py_range 0 (width theargs) _) as [cols |] eqn:Ec.
  - destruct (py_range 0 (height theargs - _) _) as [rows |] eqn:Er.
    + by apply (setup_no_prefill theargs tile_list tile0).
    + unfold setup, canvas_setup.
      rewrite (bind_eq _ _ _ _ _ (logger_log_eq _ _ _ _)).
      set (s1 := if loglevel s <=? INFO then _ else s).
      assert (Hh1 : heap s1 = heap s) by (unfold s1; by destruct (_ <=? _)).
      unfold Image_new. cbn [fst snd].
      destruct (Z.ltb_spec (width theargs) 0) as [| _]; [lia |].
      destruct (Z.ltb_spec (height theargs) 0) as [| _]; [lia |].
      cbn [orb]. unfold bind at 1, alloc. rewrite Hpre.
      unfold bind at 1, ret at 1.
      unfold bind at 1, index at 1. rewrite Ht0. unfold ret at 1.
      unfold bind at 1, Image_size at 1. cbn [heap].
      rewrite deref_alloc, im_size_new by done. cbn [fst snd].
      unfold bind at 1, range at 1. rewrite Ec. unfold ret at 1.
      unfold bind at 1, index at 1. rewrite Ht0. unfold ret at 1.
      unfold bind at 1, Image_size at 1. cbn [heap].
      rewrite deref_alloc, im_size_new by done. cbn [fst snd].
      unfold bind at 1, range at 1. rewrite Er. unfold raise.
      unfold sb, with_heap. by rewrite Hh1.
  - unfold setup, canvas_setup.
    rewrite (bind_eq _ _ _ _ _ (logger_log_eq _ _ _ _)).
    set (s1 := if loglevel s <=? INFO then _ else s).
    assert (Hh1 : heap s1 = heap s) by (unfold s1; by destruct (_ <=? _)).
    unfold Image_new. cbn [fst snd].
    destruct (Z.ltb_spec (width theargs) 0) as [| _]; [lia |].
    destruct (Z.ltb_spec (height theargs) 0) as [| _]; [lia |].
    cbn [orb]. unfold bind at 1, alloc. rewrite Hpre.
    unfold bind at 1, ret at 1.
    unfold bind at 1, index at 1. rewrite Ht0. unfold ret at 1.
    unfold bind at 1, Image_size at 1. cbn [heap].
    rewrite deref_alloc, im_size_new by done. cbn [fst snd].
    unfold bind at 1, range at 1. rewrite Ec. unfold raise.
    unfold sb, with_heap. by rewrite Hh1.
Qed.

Lemma run_setup_Raise theargs tile_list s e s' :
  setup theargs tile_list s = (Raise e, s') ->
  run theargs tile_list s = (Raise e, s').
Proof. intros Hs. unfold run. by rewrite (bind_Raise _ _ _ _ _ Hs). Qed.

(** A negative width or height: [Image.new] refuses the size at line 211,
    after the record of line 205. *)
Lemma run_negative_canvas theargs tile_list s :
  width theargs < 0 \/ height theargs < 0 ->
  run theargs tile_list s
  = (Raise (ValueError 211),
     snd (logger_log INFO
            ("Got " ++ pretty (length tile_list) ++ " image tiles")%string
            None s)).
Proof.
  intros Hneg. apply run_setup_Raise. unfold setup, canvas_setup.
  rewrite (bind_eq _ _ _ _ _ (logger_log_eq _ _ _ _)).
  unfold bind, Image_new. cbn [fst snd].
  assert ((width theargs <? 0) || (height theargs <? 0) = true) as ->.
  { apply orb_true_iff. destruct Hneg; [left | right]; by apply Z.ltb_lt. }
  by rewrite (logger_log_eq _ _ _ _).
Qed.

(** X5: a pitch of zero.  Without pre-fill, when the first tile's width plus
    [colsep] is 0 the run raises the [ValueError] of line 218 (a [range] with
    step 0); when that pitch is not 0 but the height plus [rowsep] is, it
    raises the one of line 223.  Either way the canvas has been created and
    nothing drawn. *)
Theorem zero_pitch theargs tile_list tile0 s :
  prefill theargs = false ->
  tile_list !! 0%nat = Some tile0 ->
  0 <= width theargs -> 0 <= height theargs ->
  (fst (im_size tile0) + colsep theargs = 0 ->
   fst (run theargs tile_list s) = Raise (ValueError 218)) /\
  (fst (im_size tile0) + colsep theargs <> 0 ->
   snd (im_size tile0) + rowsep theargs = 0 ->
   fst (run theargs tile_list s) = Raise (ValueError 223)) /\
  (fst (im_size tile0) + colsep theargs = 0 \/
   snd (im_size tile0) + rowsep theargs = 0 ->
   heap (snd (run theargs tile_list s))
     = heap s ++ [im_new (width theargs, height theargs)] /\
   rng (snd (run theargs tile_list s)) = rng s).
Proof.
  intros Hpre Ht0 HW HH.
  pose proof (setup_no_prefill_cases theargs tile_list tile0 s Hpre Ht0 HW HH)
    as Hs. cbv zeta in Hs.
  assert (Hrng : forall level m e,
            rng (snd (logger_log level m e s)) = rng s).
  { intros. unfold logger_log. simpl. by destruct (_ <=? _). }
  assert (Hcol : fst (im_size tile0) + colsep theargs = 0 ->
                 exists s', run theargs tile_list s = (Raise (ValueError 218), s') /\
                   heap s' = heap s ++ [im_new (width theargs, height theargs)] /\
                   rng s' = rng s).
  { intros E. rewrite E in Hs. cbn [py_range Z.eqb] in Hs.
    eexists. split; [apply run_setup_Raise, Hs |]. split; [done | apply Hrng]. }
  assert (Hrow : fst (im_size tile0) + colsep theargs <> 0 ->
                 snd (im_size tile0) + rowsep theargs = 0 ->
                 exists s', run theargs tile_list s = (Raise (ValueError 223), s') /\
                   heap s' = heap s ++ [im_new (width theargs, height theargs)] /\
                   rng s' = rng s).
  { intros Hne E. destruct (py_range_Some 0 (width theargs) _ Hne) as (cols & Ec).
    rewrite Ec, E in Hs. cbn [py_range Z.eqb] in Hs.
    eexists. split; [apply run_setup_Raise, Hs |]. split; [done | apply Hrng]. }
  split; [| split].
  - intros E. destruct (Hcol E) as (s' & -> & _). reflexivity.
  - intros Hne E. destruct (Hrow Hne E) as (s' & -> & _). reflexivity.
  - intros [E | E].
    + destruct (Hcol E) as (s' & -> & ? & ?). by split.
    + destruct (Z.eq_dec (fst (im_size tile0) + colsep theargs) 0) as [E0 | Hne].
      * destruct (Hcol E0) as (s' & -> & ? & ?). by split.
      * destruct (Hrow Hne E) as (s' & -> & ? & ?). by split.
Qed.


Lemma no_elem_nil {A} (l : list A) : (forall x, x ∉ l) -> l = [].
Proof. destruct l as [| a l]; [done |]. intros Hl. destruct (Hl a). by left. Qed.

(** The pre-fill with no tile to choose: the first cell raises. *)
Lemma randomly_fill_image_no_tiles theargs img s :
  0 < colsep theargs + 16 -> 0 < rowsep theargs + 16 ->
  0 < width theargs -> 0 < height theargs ->
  exists s', randomly_fill_image theargs img [] s = (Raise (IndexError 189), s').
Proof.
  intros Hcs Hrs HW HH.
  destruct (py_range_pos (width theargs) _ Hcs) as (xs & Exs & Hxs & _).
  destruct (py_range_pos (height theargs) _ Hrs) as (ys & Eys & Hys & _).
  assert (Hin : (0, 0) ∈ cells xs ys).
  { apply elem_of_cells. split; [apply Hxs | apply Hys];
      (split; [lia | apply Z.divide_0_r]). }
  destruct (cells xs ys) as [| c cs] eqn:Ecells;
    [by apply not_elem_of_nil in Hin |].
  destruct (random_choices_Ok (c :: cs) 24 185 s ltac:(done)) as (gl & s2 & Egl).
  exists s2. unfold randomly_fill_image.
  rewrite (bind_eq _ _ _ _ _
             (eq_trans (grid_loop_cells _ _ _ _ _ _ _ _ Exs Eys)
                       (for_acc_collect _ _ _))).
  cbn [app]. rewrite Ecells, (bind_eq _ _ _ _ _ Egl).
  apply bind_Raise. rewrite (grid_loop_cells _ _ _ _ _ _ _ _ Exs Eys), Ecells.
  reflexivity.
Qed.

(** X6: an empty tile list.  [run] never returns on it.  Without pre-fill,
    on a canvas size Pillow accepts, it raises the [IndexError] of line 216
    ([tile_list[0]]); with the pre-fill, positive pre-fill steps and a canvas
    of positive size, it already raises the one of line 189, the choice of a
    tile for the first cell. *)
Theorem empty_tile_list theargs s :
  (forall r s', run theargs [] s <> (Ok r, s')) /\
  (prefill theargs = false ->
   0 <= width theargs -> 0 <= height theargs ->
   fst (run theargs [] s) = Raise (IndexError 216)) /\
  (prefill theargs = true ->
   0 < colsep theargs + 16 -> 0 < rowsep theargs + 16 ->
   0 < width theargs -> 0 < height theargs ->
   fst (run theargs [] s) = Raise (IndexError 189)).
Proof.
  split; [| split].
  - intros r s'
      (_ & img & dl & s0 & dl' & f & rest & s1 & Hs & _)%run_Ok_inv.
    apply setup_inv in Hs as (t0 & _ & _ & Ht0 & _). discriminate.
  - intros Hpre HW HH.
    erewrite run_setup_Raise; [reflexivity |]. unfold setup, canvas_setup.
    rewrite (bind_eq _ _ _ _ _ (logger_log_eq _ _ _ _)).
    unfold Image_new. cbn [fst snd].
    destruct (Z.ltb_spec (width theargs) 0) as [| _]; [lia |].
    destruct (Z.ltb_spec (height theargs) 0) as [| _]; [lia |].
    cbn [orb]. unfold bind at 1, alloc. rewrite Hpre. reflexivity.
  - intros Hpre Hcs Hrs HW HH.
    assert (Hs : exists s', setup theargs [] s = (Raise (IndexError 189), s')).
    { unfold setup, canvas_setup.
      rewrite (bind_eq _ _ _ _ _ (logger_log_eq _ _ _ _)).
      unfold Image_new. cbn [fst snd].
      destruct (Z.ltb_spec (width theargs) 0) as [| _]; [lia |].
      destruct (Z.ltb_spec (height theargs) 0) as [| _]; [lia |].
      cbn [orb]. unfold bind at 1, alloc. rewrite Hpre.
      match goal with |- context [bind (randomly_fill_image _ ?img _) _ ?s1] =>
        destruct (randomly_fill_image_no_tiles theargs img s1 Hcs Hrs HW HH)
          as (s2 & E) end.
      exists s2. by apply bind_Raise. }
    destruct Hs as (s' & Hs). by rewrite (run_setup_Raise _ _ _ _ _ Hs).
Qed.

Lemma drop_tile_no_cols self s :
  _curloc self = None -> _thecols self = [] ->
  drop_tile self s = (Raise (IndexError 125), s).
Proof.
  intros Hcur Hc. unfold drop_tile, update_location. rewrite Hcur.
  cbn [_thecols set_prev_tiles]. by rewrite Hc.
Qed.

(** X7: a canvas too small for the anchor grid.  With positive pitches, a
    canvas of width 0, or one not higher than five row pitches, leaves the
    droppers without a column or without a row anchor; with at least one
    dropper and one frame the first drop then raises the [IndexError] of
    line 125 and the run ends with it, no frame taken. *)
Theorem empty_grid_fails theargs tile_list tile0 s img d_list s0 :
  setup theargs tile_list s = (Ok (img, d_list), s0) ->
  tile_list !! 0%nat = Some tile0 ->
  0 < fst (im_size tile0) + colsep theargs ->
  0 < snd (im_size tile0) + rowsep theargs ->
  width theargs <= 0 \/
    height theargs <= 5 * (snd (im_size tile0) + rowsep theargs) ->
  0 < numupdators theargs ->
  0 < numframes theargs ->
  exists s',
    run theargs tile_list s = (Raise (IndexError 125), s') /\
    length (heap s') = length (heap s0).
Proof.
  intros Hs Ht Hcw Hrw Hsmall Hnu Hnf. pose proof Hs as Hinv.
  apply setup_inv in Hinv
    as (t0 & cols & rows & Ht0 & _ & _ & _ & Ec & Er & Hdl & _).
  rewrite Ht in Ht0. injection Ht0 as <-.
  destruct (py_range_pos (width theargs) _ Hcw) as (cols' & Ec' & Hcm & _).
  destruct (py_range_pos (height theargs
                          - 5 * (snd (im_size tile0) + rowsep theargs)) _ Hrw)
    as (rows' & Er' & Hrm & _).
  rewrite Ec' in Ec. injection Ec as ->. rewrite Er' in Er. injection Er as ->.
  destruct (Z.to_nat (numupdators theargs)) as [| n] eqn:En; [lia |].
  cbn [replicate] in Hdl. subst d_list.
  set (d := TileDropper__init__ cols rows _ _ _ _) in *.
  assert (Hd : exists s1,
            drop_tile d (snd (logger_log DEBUG "Step 0" None s0))
              = (Raise (IndexError 125), s1) /\
            heap s1 = heap s0).
  { assert (Hh : heap (snd (logger_log DEBUG "Step 0" None s0)) = heap s0).
    { unfold logger_log. simpl. by destruct (_ <=? _). }
    destruct cols as [| c cols0] eqn:Ecols.
    - eexists. split; [by apply drop_tile_no_cols | done].
    - assert (rows = []) as ->.
      { apply no_elem_nil. intros y Hy. apply Hrm in Hy.
        destruct Hsmall as [HW | HH]; [| lia].
        assert (Hc : c ∈ c :: cols0) by left. apply Hcm in Hc. lia. }
      eexists. split; [by apply drop_tile_no_rows |]. done. }
  destruct Hd as (s1 & Hd & Hh1).
  exists s1. split; [| by rewrite Hh1].
  unfold run. rewrite (bind_eq _ _ _ _ _ Hs).
  apply bind_Raise. by apply frames_first_drop_raises.
Qed.



(** ** A run without droppers *)

Lemma frame_still img x (il : list nat) (s : @State Image G) :
  exists s',
    frame img x ([], il) s = (Ok ([], il ++ [length (heap s)]), s') /\
    heap s' = heap s ++ [deref (heap s) img] /\ rng s' = rng s.
Proof.
  unfold frame. rewrite (bind_eq _ _ _ _ _ (logger_log_eq _ _ _ _)).
  destruct (loglevel s <=? DEBUG); eexists; (split; [reflexivity | done]).
Qed.

Lemma frames_still img xs (il : list nat) (s : @State Image G) :
  (img < length (heap s))%nat ->
  exists s',
    for_acc xs ([], il) (frame img) s
      = (Ok ([], il ++ seq (length (heap s)) (length xs)), s') /\
    heap s' = heap s ++ replicate (length xs) (deref (heap s) img) /\
    rng s' = rng s.
Proof.
  revert il s. induction xs as [| x xs IH]; intros il s Himg.
  - exists s. simpl. by rewrite !app_nil_r.
  - destruct (frame_still img x il s) as (s1 & E1 & Hh1 & Hr1).
    destruct (IH (il ++ [length (heap s)]) s1) as (s' & E' & Hh' & Hr').
    { rewrite Hh1, length_app. lia. }
    exists s'. cbn [for_acc]. rewrite (bind_eq _ _ _ _ _ E1), E'.
    assert (Hd : deref (heap s1) img = deref (heap s) img).
    { unfold deref. by rewrite Hh1, lookup_app_l. }
    rewrite Hh', Hr', Hd, Hh1, length_app. cbn [length replicate seq].
    rewrite Nat.add_1_r, <- !app_assoc. done.
Qed.

Lemma deref_replicate (h : list Image) n c :
  deref (h ++ replicate n c) <$> seq (length h) n = replicate n c.
Proof.
  revert h. induction n as [| n IH]; intros h; [done |].
  cbn [seq replicate fmap list_fmap]. f_equal.
  - unfold deref. by rewrite list_lookup_middle.
  - specialize (IH (h ++ [c])). rewrite length_app, Nat.add_1_r in IH.
    by rewrite <- app_assoc in IH.
Qed.

(** X8: a run without droppers.  When the set-up returns and the number of
    droppers asked for is zero or negative, a run of at least one frame
    hands the GIF writer [numframes] frames that are all the canvas as the
    set-up left it; the run returns 0 when the writer returns and raises
    what the writer raises, the file is what the writer wrote, and the
    frame loop draws no random number. *)
Theorem no_droppers_still_frames theargs tile_list s img d_list s0 :
  setup theargs tile_list s = (Ok (img, d_list), s0) ->
  numupdators theargs <= 0 ->
  0 < numframes theargs ->
  let canvas := deref (heap s0) img in
  let written :=
    im_save canvas (replicate (Z.to_nat (numframes theargs) - 1) canvas)
      (duration theargs) in
  exists s',
    run theargs tile_list s
      = (match fst written with Ok _ => Ok 0 | Raise e => Raise e end, s') /\
    outfile s' = Some (snd written) /\
    rng s' = rng s0.
Proof.
  intros Hs Hnu Hnf canvas written. pose proof Hs as Hinv.
  apply setup_inv in Hinv
    as (t0 & cols & rows & _ & _ & _ & Himg & _ & _ & Hdl & Hlen & _).
  replace (Z.to_nat (numupdators theargs)) with 0%nat in Hdl by lia.
  cbn [replicate] in Hdl. subst d_list.
  destruct (frames_still img (Z.of_nat <$> seq 0 (Z.to_nat (numframes theargs)))
              [] s0 ltac:(lia)) as (s1 & Ef & Hh1 & Hr1).
  rewrite length_fmap, length_seq, app_nil_l in Ef.
  rewrite length_fmap, length_seq in Hh1.
  pose proof (frames_eq theargs img [] s0) as Hfe. rewrite Ef in Hfe.
  destruct (Z.to_nat (numframes theargs)) as [| n] eqn:En; [lia |].
  pose proof (deref_replicate (heap s0) (S n) (deref (heap s0) img)) as Hrep.
  rewrite <- Hh1 in Hrep. cbn [seq fmap list_fmap replicate] in Hrep.
  injection Hrep as Hfirst Hrest.
  assert (Hw : im_save (deref (heap s1) (length (heap s0)))
                 (map (deref (heap s1)) (seq (S (length (heap s0))) n))
                 (duration theargs) = written).
  { unfold written. rewrite Hfirst. replace (S n - 1)%nat with n by lia.
    f_equal. exact Hrest. }
  eexists. unfold run. rewrite (bind_eq _ _ _ _ _ Hs).
  rewrite (bind_eq _ _ _ _ _ Hfe).
  unfold encode, bind, index, ret, Image_save.
  cbn [seq lookup list_lookup tail]. rewrite Hw.
  destruct (fst written) as [[] | e]; (split; [reflexivity |]);
    cbn [outfile rng]; by split.
Qed.

(** ** The pre-fill on a canvas without cells *)

Lemma py_range_empty stop step :
  0 < step -> stop <= 0 -> py_range 0 stop step = Some [].
Proof.
  intros Hstep Hstop.
  destruct (py_range_pos stop step Hstep) as (l & -> & Hl & _).
  f_equal. apply no_elem_nil. intros x [? _]%Hl. lia.
Qed.


(** X9: the pre-fill on a canvas of width or height 0.  Pillow creates such
    a canvas, the pre-fill grid has no cell, and [random.choices] on the
    empty population raises the [IndexError] of line 185 after one random
    number has been drawn: the run ends there, the canvas created and
    nothing pasted, whatever the tiles are. *)
Theorem prefill_on_empty_canvas theargs tile_list s :
  prefill theargs = true ->
  0 < colsep theargs + 16 -> 0 < rowsep theargs + 16 ->
  0 <= width theargs -> 0 <= height theargs ->
  width theargs = 0 \/ height theargs = 0 ->
  exists s',
    run theargs tile_list s = (Raise (IndexError 185), s') /\
    heap s' = heap s ++ [im_new (width theargs, height theargs)] /\
    rng s' = snd (randfloor 0 (rng s)).
Proof.
  intros Hpre Hcs Hrs HW HH Hzero.
  destruct (py_range_pos (width theargs) _ Hcs) as (xs & Exs & Hxs & _).
  destruct (py_range_pos (height theargs) _ Hrs) as (ys & Eys & Hys & _).
  assert (Hcells : cells xs ys = []).
  { destruct Hzero as [Hz | Hz].
    - rewrite (py_range_empty (width theargs) _ Hcs ltac:(lia)) in Exs.
      by injection Exs as <-.
    - rewrite (py_range_empty (height theargs) _ Hrs ltac:(lia)) in Eys.
      injection Eys as <-. apply cells_nil_r. }
  eexists. split.
  - apply run_setup_Raise. unfold setup, canvas_setup.
    rewrite (bind_eq _ _ _ _ _ (logger_log_eq _ _ _ _)).
    unfold Image_new. cbn [fst snd].
    destruct (Z.ltb_spec (width theargs) 0) as [| _]; [lia |].
    destruct (Z.ltb_spec (height theargs) 0) as [| _]; [lia |].
    cbn [orb]. unfold bind at 1, alloc. rewrite Hpre.
    apply bind_Raise. unfold randomly_fill_image.
    rewrite (bind_eq _ _ _ _ _
               (eq_trans (grid_loop_cells _ _ _ _ _ _ _ _ Exs Eys)
                         (for_acc_collect _ _ _))).
    rewrite Hcells. cbn [app]. apply bind_Raise.
    apply random_choices_nil.
  - unfold with_rng. cbn [heap rng]. by destruct (loglevel s <=? INFO).
Qed.


(** ** Where a dropper is *)

(** X10: every dropper the script can reach, from the constructor by any
    sequence of relocations and drops that return, is either without a
    location or on one of its anchor columns. *)
Theorem located_on_anchor_column (self : @TileDropper Image) :
  reachable (G:=G) self ->
  forall x y, _curloc self = Some (x, y) -> x ∈ _thecols self.
Proof.
  induction 1 as [| self s self' s' Hr IH Hu | self s self' s' Hr IH Hd];
    intros x y Hloc.
  - discriminate.
  - apply update_location_inv in Hu as (x0 & y0 & Hx0 & _ & -> & _).
    cbn in Hloc. by injection Hloc as <- <-.
  - apply drop_tile_inv in Hd
      as (self1 & s1 & a & [x1 y1] & c' & H1 & Hl1 & _ & -> & Hc').
    cbn [_curloc set_curloc] in Hloc.
    destruct Hc' as [-> | ->]; [done |].
    cbn [fst snd] in Hloc. injection Hloc as <- _.
    cbn [_thecols set_curloc set_prev_tiles].
    destruct (_curloc self) as [loc |] eqn:Hcur.
    + destruct H1 as [-> ->]. apply (IH x1 y1). congruence.
    + apply update_location_inv in H1 as (x0 & y0 & Hx0 & _ & -> & _).
      cbn in Hl1. injection Hl1 as <- <-. done.
Qed.

Lemma push_front_length_eq (a : Image) l :
  (length l <= 5)%nat ->
  length (push_front a l) = Nat.min (S (length l)) 5.
Proof.
  intros Hl. unfold push_front. cbn [length].
  destruct (Nat.eqb_spec (length l) 5) as [E | E].
  - rewrite length_removelast. lia.
  - lia.
Qed.

Lemma drop_n_fall k :
  forall (self : @TileDropper Image) x y h (s : @State Image G),
  _curloc self = Some (x, y) ->
  wf_dropper self ->
  _tile_list self <> [] ->
  blendable (_tile_list self) ->
  blendable (deque.items (_prev_tiles self)) ->
  Forall (fun t => snd (im_size t) = h) (_tile_list self) ->
  0 <= h + _rowsep self ->
  y + Z.of_nat k * (h + _rowsep self)
    <= canvas_height self s + 5 * (h + _rowsep self) ->
  exists self' s',
    drop_n k self s = (Ok self', s') /\
    _curloc self' = Some (x, y + Z.of_nat k * (h + _rowsep self)) /\
    same_setup self self' /\ wf_dropper self' /\
    canvas_height self' s' = canvas_height self s /\
    blendable (deque.items (_prev_tiles self')) /\
    length (deque.items (_prev_tiles self'))
      = Nat.min (length (deque.items (_prev_tiles self)) + k) 5.
Proof.
  induction k as [| k IH]; intros self x y h s Hloc Hwf Hne Hbt Hbh Hh Hp Hy.
  - exists self, s. split; [done |]. rewrite Hloc. split; [f_equal; f_equal; lia |].
    split; [apply same_setup_refl |]. split; [done |]. split; [done |].
    split; [done |].
    destruct Hwf as (_ & Hmax & Hbd). unfold deque.bounded, deque.len in Hbd.
    lia.
  - destruct (drop_tile_at self (x, y) s Hloc Hwf Hne) as (a & Ha & Ed & _).
    assert (Hbl : blendable (push_front a (deque.items (_prev_tiles self)))).
    { apply blendable_push_front; [| done].
      by apply (blendable_elem a (_tile_list self)). }
    specialize (Ed Hbl).
    cbv zeta in Ed. cbn [fst snd] in Ed.
    rewrite Forall_forall in Hh. rewrite (Hh a Ha) in Ed.
    assert (Hkp : 0 <= Z.of_nat k * (h + _rowsep self))
      by (apply Z.mul_nonneg_nonneg; lia).
    destruct (Z.ltb_spec (canvas_height self s + (h + _rowsep self) * 5)
                (y + (h + _rowsep self))) as [Hlt | _]; [lia |].
    match type of Ed with _ = (Ok ?d, ?t) => set (self1 := d) in *;
                                               set (s1 := t) in * end.
    assert (Hwf1 : wf_dropper self1) by (by eapply wf_dropper_drop).
    assert (Hch : canvas_height self1 s1 = canvas_height self s).
    { unfold canvas_height, self1, s1, with_heap, with_rng.
      cbn [_img set_curloc set_prev_tiles heap].
      by rewrite deref_write_size by apply composite_size. }
    destruct (IH self1 x (y + (h + _rowsep self)) h s1)
      as (self' & s' & En & Hloc' & Hss & Hwf' & Hch' & Hbh' & Hlen); try done.
    { by apply Forall_forall. }
    { rewrite Hch. cbn [_rowsep self1 set_curloc set_prev_tiles]. lia. }
    exists self', s'. cbn [drop_n]. rewrite (bind_eq _ _ _ _ _ Ed).
    split; [done |]. rewrite Hloc'.
    cbn [_rowsep self1 set_curloc set_prev_tiles].
    split; [f_equal; f_equal; lia |].
    split; [eapply same_setup_trans; [| exact Hss]; by repeat split |].
    split; [done |]. split; [congruence |]. split; [done |].
    rewrite Hlen. cbn [_prev_tiles self1 set_curloc set_prev_tiles deque.items].
    destruct Hwf as (_ & Hmax & Hbd). unfold deque.bounded, deque.len in Hbd.
    rewrite push_front_length_eq by lia. lia.
Qed.

(** X11: the fall of a dropper whose tiles, in the tile list and in the
    history, the brightness enhancer accepts.  With tiles of one height
    [h], the row pitch is [h + rowsep]; from the location [(x, y)], as long
    as [y + k * pitch] is not more than five pitches below the canvas
    bottom, [k] drops all return and leave the dropper at
    [(x, y + k * pitch)] with [min (n + k) 5] tiles in its history, [n]
    being its length before.  The drop that would take the location further
    unsets it. *)
Theorem falling_dropper (self : @TileDropper Image) x y h k (s : @State Image G) :
  _curloc self = Some (x, y) ->
  wf_dropper self ->
  _tile_list self <> [] ->
  blendable (_tile_list self) ->
  blendable (deque.items (_prev_tiles self)) ->
  Forall (fun t => snd (im_size t) = h) (_tile_list self) ->
  0 <= h + _rowsep self ->
  y + Z.of_nat k * (h + _rowsep self)
    <= canvas_height self s + 5 * (h + _rowsep self) ->
  exists self' s',
    drop_n k self s = (Ok self', s') /\
    _curloc self' = Some (x, y + Z.of_nat k * (h + _rowsep self)) /\
    length (deque.items (_prev_tiles self'))
      = Nat.min (length (deque.items (_prev_tiles self)) + k) 5 /\
    (canvas_height self s + 5 * (h + _rowsep self)
       < y + Z.of_nat (S k) * (h + _rowsep self) ->
     exists self'' s'',
       drop_tile self' s' = (Ok self'', s'') /\ _curloc self'' = None).
Proof.
  intros Hloc Hwf Hne Hbt Hbh Hh Hp Hy.
  destruct (drop_n_fall k self x y h s Hloc Hwf Hne Hbt Hbh Hh Hp Hy)
    as (self' & s' & En & Hloc' & Hss & Hwf' & Hch & Hbh' & Hlen).
  exists self', s'. split; [done |]. split; [done |]. split; [done |].
  intros Hover.
  destruct Hss as (_ & Hrs & Htl & _).
  destruct (drop_tile_at self' _ s' Hloc' Hwf' ltac:(by rewrite Htl))
    as (a & Ha & Ed & _).
  rewrite Htl in Ha.
  assert (Hbl : blendable (push_front a (deque.items (_prev_tiles self')))).
  { apply blendable_push_front; [| done].
    by apply (blendable_elem a (_tile_list self)). }
  specialize (Ed Hbl).
  cbv zeta in Ed. cbn [fst snd] in Ed.
  rewrite Forall_forall in Hh.
  rewrite (Hh a Ha), Hrs, Hch in Ed.
  destruct (Z.ltb_spec (canvas_height self s + (h + _rowsep self) * 5)
              (y + Z.of_nat k * (h + _rowsep self) + (h + _rowsep self)))
    as [_ | Hge]; [| lia].
  by eexists _, _.
Qed.

End Script.

(** * The script from its command line *)

(** What [get_tiles] asks of the file system and of Pillow.  [listdir d] is
    [os.listdir(os.path.abspath(d))], in the order the system gives;
    [isfile d entry] is [os.path.isfile] of the joined path;
    [Image_open d entry] is the image [Image.open] gives for that path, or
    the exception it raises.  [Image.open] reads the header of the file
    only: the pixels are read by the first operation that needs them, which
    is the rotation of line 166.  So [im_rotate im angle], which is
    [im.rotate(angle)], raises on a file that is truncated or damaged; a
    rotation that returns keeps the size of the image. *)
Class TileFiles (Image : Type) `{!Pillow Image} : Type := {
  listdir : string -> res (list string);
  isfile : string -> string -> bool;
  Image_open : string -> string -> res Image;
  im_rotate : Image -> Z -> res Image;
  im_size_rotate : forall im angle im',
    im_rotate im angle = Ok im' -> im_size im' = im_size im
}.

(** The output directory.  [isdir d] is [os.path.isdir(os.path.abspath(d))]
    and [makedirs d] is [os.makedirs(os.path.abspath(d), mode=0o755)]: what
    the call returns or raises ([FileExistsError] when the path is a file)
    and the directories it created. *)
Class OutputDir : Type := {
  isdir : string -> bool;
  makedirs : string -> res unit * list string
}.

(** [argparse] behind [_parse_arguments desc args]: the namespace of a
    command line, or the [SystemExit] of [parser.error] and of [--help]. *)
Class ArgParser : Type := {
  _parse_arguments : string -> list string -> res Args
}.

(** [s.endswith(suffix)] *)
Definition endswith (s suffix : string) : bool :=
  bool_decide (list_ascii_of_string suffix `suffix_of` list_ascii_of_string s).

(** The description [main] hands to the parser. *)
Definition desc : string :=
  let nl := String (Ascii.ascii_of_nat 10) EmptyString in
  (nl ++ "    " ++ nl ++ "    Patrix image generator" ++ nl ++ "    " ++ nl
      ++ nl ++ "    ")%string.

Section Tiles.
Context {Image : Type} `{!Pillow Image} {G : Type} `{!Random G}.
Context `{!TileFiles Image} `{!OutputDir} `{!ArgParser}.

Notation "'let*' x ':=' m 'in' k" := (bind m (fun x => k))
  (at level 10, x pattern, m at level 100, k at level 200).

(** A call outside the script that returns or raises. *)
Definition lift {A} (r : res A) : @M Image G A := fun s => (r, s).

Definition get_tiles (imagedir : string) : @M Image G (list Image) :=
  let* entries := lift (listdir imagedir) in
  for_acc entries [] (fun entry img_list =>
    if negb (isfile imagedir entry) then ret img_list
    else if negb (endswith entry ".png") then ret img_list
    else
      let* t_img := lift (Image_open imagedir entry) in
      let img_list := img_list ++ [t_img] in
      let* r90 := lift (im_rotate t_img 90) in
      let img_list := img_list ++ [r90] in
      let* r180 := lift (im_rotate t_img 180) in
      let img_list := img_list ++ [r180] in
      let* r270 := lift (im_rotate t_img 270) in
      let img_list := img_list ++ [r270] in
      ret img_list).

(** [run] from its first line, in an output directory that exists (the
    test of line 208 is false): the tiles are read, then the run goes on
    with them. *)
Definition run_from_dir (theargs : Args) : @M Image G Z :=
  let* tile_list := get_tiles (imagedir theargs) in
  run theargs tile_list.

(** Lines 207 to 209 of [run]. *)
Definition ensure_outdir (abs_outdir : string) : @M Image G unit :=
  if negb (isdir abs_outdir)
  then fun s =>
         let made := makedirs abs_outdir in
         (fst made,
          mkState (heap s) (rng s) (loglevel s) (log s) (outfile s)
                  (dirs s ++ snd made))
  else ret tt.

(** [run(theargs)], every line of it, in whatever the output directory
    is. *)
Definition run_script (theargs : Args) : @M Image G Z :=
  let* tile_list := get_tiles (imagedir theargs) in
  let* _ := logger_log INFO
              ("Got " ++ pretty (length tile_list) ++ " image tiles")%string
              None in
  let* _ := ensure_outdir (outdir theargs) in
  let* (img, d_list) := canvas_setup theargs tile_list in
  let* (_, img_list) := frames theargs img d_list in
  let* _ := encode theargs img_list in
  ret 0.

(** [main(args)].  The command line is parsed outside the [try] statement,
    so what the parser raises leaves [main]; so does the [IndexError] of
    [args[0]].  The handler catches every [Exception], which [SystemExit]
    is not.  The attribute [program] set at line 259 is never read. *)
Definition main_from_argv (args : list string) : @M Image G Z :=
  let* theargs := lift (_parse_arguments desc (tail args)) in
  let* _ := index args 0 259 in
  fun s =>
    match (let* _ := _setup_logging theargs in run_script theargs) s with
    | (Ok status, s') => (Ok status, s')
    | (Raise (SystemExit code), s') => (Raise (SystemExit code), s')
    | (Raise e, s') =>
        (Ok 2, snd (logger_log ERROR "Caught exception" (Some e) s'))
    end.

(** The entries [get_tiles] opens, and the four tiles one file gives: the
    image and its rotations, or the exception of the first of the calls of
    lines 164 to 168 that raises. *)
Definition tile_files (imagedir : string) (entries : list string) : list string :=
  List.filter (fun entry => isfile imagedir entry && endswith entry ".png")
    entries.

Definition variants (t_img : Image) : res (list Image) :=
  match im_rotate t_img 90 with
  | Raise e => Raise e
  | Ok r90 =>
      match im_rotate t_img 180 with
      | Raise e => Raise e
      | Ok r180 =>
          match im_rotate t_img 270 with
          | Raise e => Raise e
          | Ok r270 => Ok [t_img; r90; r180; r270]
          end
      end
  end.

Definition tiles_of (imagedir entry : string) : res (list Image) :=
  match Image_open imagedir entry with
  | Raise e => Raise e
  | Ok t_img => variants t_img
  end.

Definition get_tiles_body (imagedir : string) (entry : string)
    (img_list : list Image) : @M Image G (list Image) :=
  if negb (isfile imagedir entry) then ret img_list
  else if negb (endswith entry ".png") then ret img_list
  else
    let* tiles := lift (tiles_of imagedir entry) in
    ret (img_list ++ tiles).

Lemma for_acc_congr {A S} (l : list A) (acc : S)
    (f g : A -> S -> @M Image G S) s :
  (forall x a s, f x a s = g x a s) ->
  for_acc l acc f s = for_acc l acc g s.
Proof.
  intros Hfg. revert acc s. induction l as [| x l IH]; intros acc s; [done |].
  cbn [for_acc]. apply bind_congr; [apply Hfg | intros; apply IH].
Qed.

Lemma get_tiles_eq imagedir s :
  get_tiles imagedir s =
  bind (lift (listdir imagedir))
    (fun entries => for_acc entries [] (get_tiles_body imagedir)) s.
Proof.
  unfold get_tiles. apply bind_congr; [done |]. intros entries s1.
  apply for_acc_congr. intros entry img_list s2.
  unfold get_tiles_body, tiles_of, variants.
  destruct (negb _); [done |]. destruct (negb _); [done |].
  unfold bind, lift, ret.
  destruct (Image_open imagedir entry) as [t |]; [| done].
  destruct (im_rotate t 90); [| done].
  destruct (im_rotate t 180); [| done].
  destruct (im_rotate t 270); [| done].
  by rewrite <- !app_assoc.
Qed.

Lemma get_tiles_loop imagedir entries acc tiles (s : @State Image G) :
  Forall2 (fun entry ts => tiles_of imagedir entry = Ok ts)
    (tile_files imagedir entries) tiles ->
  for_acc entries acc (get_tiles_body imagedir) s
    = (Ok (acc ++ concat tiles), s).
Proof.
  revert acc tiles. induction entries as [| e es IH]; intros acc tiles Hts.
  - apply Forall2_nil_inv_l in Hts as ->. simpl. by rewrite app_nil_r.
  - cbn [for_acc]. unfold tile_files in Hts. cbn [List.filter] in Hts.
    unfold get_tiles_body at 1.
    destruct (isfile imagedir e); cbn [negb andb] in *;
      [destruct (endswith e ".png"); cbn [negb] in * |].
    + apply Forall2_cons_inv_l in Hts as (ts & tiles' & Ho & Hts' & ->).
      unfold bind at 1. unfold bind at 1. unfold lift at 1. rewrite Ho.
      unfold ret at 1. rewrite (IH _ tiles' Hts').
      cbn [concat]. by rewrite <- !app_assoc.
    + unfold bind at 1, ret at 1. by apply IH.
    + unfold bind at 1, ret at 1. by apply IH.
Qed.

(** Reading the tiles touches nothing of the program state. *)
Lemma get_tiles_state imagedir (s : @State Image G) :
  snd (get_tiles imagedir s) = s.
Proof.
  rewrite get_tiles_eq. unfold bind at 1, lift at 1.
  destruct (listdir imagedir) as [entries |]; [| done].
  generalize (@nil Image) as acc.
  induction entries as [| e es IH]; intros acc; [done |].
  cbn [for_acc]. unfold bind at 1, get_tiles_body at 1.
  destruct (negb _); [apply IH |]. destruct (negb _); [apply IH |].
  unfold bind, lift, ret. destruct (tiles_of imagedir e); [apply IH | done].
Qed.


(** The run once the tiles are read: the record of line 205 and the
    output directory do not depend on each other, so the run goes on as
    [run] does in the state the directory call leaves, or ends with what
    [makedirs] raises. *)
Lemma run_script_eq theargs tile_list (s : @State Image G) :
  get_tiles (imagedir theargs) s = (Ok tile_list, s) ->
  run_script theargs s =
  match fst (ensure_outdir (outdir theargs) s) with
  | Ok _ => run theargs tile_list (snd (ensure_outdir (outdir theargs) s))
  | Raise e =>
      (Raise e,
       snd (ensure_outdir (outdir theargs)
              (snd (logger_log INFO
                      ("Got " ++ pretty (length tile_list) ++ " image tiles")%string
                      None s))))
  end.
Proof.
  intros Hg. unfold run_script. rewrite (bind_eq _ _ _ _ _ Hg).
  unfold run, setup. unfold bind at 1. unfold bind at 1.
  unfold bind at 4. unfold bind at 4.
  unfold logger_log, ensure_outdir.
  destruct (isdir (outdir theargs)); cbn [negb].
  - unfold ret at 1. cbn [fst snd]. reflexivity.
  - destruct (makedirs (outdir theargs)) as [[[] | e] ds];
      cbn [fst snd heap rng loglevel log outfile dirs];
      destruct (loglevel s <=? INFO);
      cbn [fst snd heap rng loglevel log outfile dirs]; reflexivity.
Qed.

Lemma ensure_outdir_keeps abs_outdir (s : @State Image G) :
  heap (snd (ensure_outdir abs_outdir s)) = heap s /\
  rng (snd (ensure_outdir abs_outdir s)) = rng s /\
  loglevel (snd (ensure_outdir abs_outdir s)) = loglevel s /\
  log (snd (ensure_outdir abs_outdir s)) = log s /\
  outfile (snd (ensure_outdir abs_outdir s)) = outfile s.
Proof. unfold ensure_outdir. by destruct (isdir abs_outdir). Qed.

Lemma ensure_outdir_result abs_outdir (s : @State Image G) :
  fst (ensure_outdir abs_outdir s)
  = if isdir abs_outdir then Ok tt else fst (makedirs abs_outdir).
Proof. unfold ensure_outdir. by destruct (isdir abs_outdir). Qed.

(** In an output directory that exists the run is [run_from_dir]. *)
Lemma run_script_in_place theargs (s : @State Image G) :
  isdir (outdir theargs) = true ->
  run_script theargs s = run_from_dir theargs s.
Proof.
  intros Hd. unfold run_from_dir.
  destruct (get_tiles (imagedir theargs) s) as [[tile_list | e] s1] eqn:Hg.
  - pose proof (get_tiles_state (imagedir theargs) s) as Hs.
    rewrite Hg in Hs. cbn [snd] in Hs. subst s1.
    rewrite (run_script_eq _ _ _ Hg), (bind_eq _ _ _ _ _ Hg).
    unfold ensure_outdir. by rewrite Hd.
  - unfold run_script. by rewrite !(bind_Raise _ _ _ _ _ Hg).
Qed.

(** ** The tile directory *)

(** X12: the tile set of a directory.  When the directory can be listed,
    every regular file of it whose name ends in [.png] opens and each of
    the three rotations of every such image returns, [get_tiles] returns,
    in the order of the listing, each of those images followed by its
    rotations by 90, 180 and 270 degrees, and nothing for the other
    entries: four tiles a file, each of the size of its file, so that files
    of one size give tiles of one size.  The program state is untouched. *)
Theorem tiles_of_directory imagedir entries ims tiles (s : @State Image G) :
  listdir imagedir = Ok entries ->
  Forall2 (fun entry im => Image_open imagedir entry = Ok im)
    (tile_files imagedir entries) ims ->
  Forall2 (fun im ts => variants im = Ok ts) ims tiles ->
  get_tiles imagedir s = (Ok (concat tiles), s) /\
  length (concat tiles) = (4 * length (tile_files imagedir entries))%nat /\
  (forall i im, ims !! i = Some im ->
     exists r90 r180 r270,
       im_rotate im 90 = Ok r90 /\ im_rotate im 180 = Ok r180 /\
       im_rotate im 270 = Ok r270 /\
       concat tiles !! (4 * i)%nat = Some im /\
       concat tiles !! (4 * i + 1)%nat = Some r90 /\
       concat tiles !! (4 * i + 2)%nat = Some r180 /\
       concat tiles !! (4 * i + 3)%nat = Some r270) /\
  (forall size, Forall (fun im => im_size im = size) ims ->
     Forall (fun t => im_size t = size) (concat tiles)).
Proof.
  intros Hl Hims Hvar.
  assert (Hshape : Forall2 (fun im ts => exists r90 r180 r270,
                      im_rotate im 90 = Ok r90 /\ im_rotate im 180 = Ok r180 /\
                      im_rotate im 270 = Ok r270 /\
                      ts = [im; r90; r180; r270]) ims tiles).
  { eapply Forall2_impl; [exact Hvar |]. intros im ts. unfold variants.
    destruct (im_rotate im 90) as [r90 |]; [| done].
    destruct (im_rotate im 180) as [r180 |]; [| done].
    destruct (im_rotate im 270) as [r270 |]; [| done].
    intros [= <-]. by exists r90, r180, r270. }
  split; [| split; [| split]].
  - rewrite get_tiles_eq. unfold bind, lift. rewrite Hl.
    rewrite (get_tiles_loop imagedir entries [] tiles); [done |].
    clear Hl Hshape. revert tiles Hvar.
    induction Hims as [| e im es ims' Ho _ IH]; intros tiles Hvar.
    + apply Forall2_nil_inv_l in Hvar as ->. constructor.
    + apply Forall2_cons_inv_l in Hvar as (ts & tiles' & Hv & Hvar' & ->).
      constructor; [| by apply IH]. unfold tiles_of. by rewrite Ho.
  - rewrite (Forall2_length _ _ _ Hims). clear Hims Hvar Hl.
    induction Hshape as [| im ts ims' tiles' (a & b & c & _ & _ & _ & ->) _ IH];
      [done |].
    cbn [concat]. rewrite length_app, IH. cbn [length]. lia.
  - clear Hims Hvar Hl.
    induction Hshape as [| im0 ts ims' tiles' (a & b & c & Ha & Hb & Hc & ->) _ IH];
      intros i im Hi; [done |].
    cbn [concat]. destruct i as [| i].
    + injection Hi as ->. by exists a, b, c.
    + cbn [lookup list_lookup] in Hi.
      destruct (IH i im Hi) as (r90 & r180 & r270 & ? & ? & ? & ? & ? & ? & ?).
      exists r90, r180, r270.
      replace (4 * S i)%nat with (4 + 4 * i)%nat by lia.
      replace (4 + 4 * i + 1)%nat with (4 + (4 * i + 1))%nat by lia.
      replace (4 + 4 * i + 2)%nat with (4 + (4 * i + 2))%nat by lia.
      replace (4 + 4 * i + 3)%nat with (4 + (4 * i + 3))%nat by lia.
      done.
  - intros size Hsz. clear Hims Hvar Hl.
    induction Hshape as [| im ts ims' tiles' (a & b & c & Ha & Hb & Hc & ->) _ IH];
      [done |].
    apply Forall_cons in Hsz as [Him Hsz].
    cbn [concat]. apply Forall_app. split; [| by apply IH].
    repeat constructor; try done.
    + by rewrite (im_size_rotate _ _ _ Ha).
    + by rewrite (im_size_rotate _ _ _ Hb).
    + by rewrite (im_size_rotate _ _ _ Hc).
Qed.

(** X13: a tile directory that cannot be read.  When listing the directory
    raises, or when a tile file whose open (line 164) or one of whose
    rotations (lines 166 to 168) raises comes after tile files that all
    open and rotate, [get_tiles] raises that exception, and so does the
    run, in the state it started in: no record is logged, no directory or
    canvas created, no random number drawn, no file written. *)
Theorem unreadable_tiles theargs e (s : @State Image G) :
  listdir (imagedir theargs) = Raise e \/
  (exists before entry after tiles,
     listdir (imagedir theargs) = Ok (before ++ entry :: after) /\
     Forall2 (fun entry ts => tiles_of (imagedir theargs) entry = Ok ts)
       (tile_files (imagedir theargs) before) tiles /\
     isfile (imagedir theargs) entry = true /\
     endswith entry ".png" = true /\
     tiles_of (imagedir theargs) entry = Raise e) ->
  get_tiles (imagedir theargs) s = (Raise e, s) /\
  run_script theargs s = (Raise e, s).
Proof.
  intros Hfail.
  assert (Hg : get_tiles (imagedir theargs) s = (Raise e, s)).
  { rewrite get_tiles_eq. unfold bind at 1. unfold lift at 1.
    destruct Hfail
      as [-> | (before & entry & after & ims & -> & Hims & Hf & Hp & Ho)];
      [done |].
    rewrite for_acc_app, (bind_eq _ _ _ _ _ (get_tiles_loop _ _ _ _ _ Hims)).
    cbn [for_acc]. apply bind_Raise. unfold get_tiles_body.
    rewrite Hf, Hp. cbn [negb]. unfold bind, lift. by rewrite Ho. }
  split; [exact Hg |]. unfold run_script. by apply bind_Raise.
Qed.

(** X14: a directory without tile files.  When the listing has no regular
    file whose name ends in [.png], the tile set is empty and the run never
    returns; without the pre-fill, on a canvas size Pillow accepts, it
    raises the [IndexError] of line 216. *)
Theorem directory_without_tiles theargs entries (s : @State Image G) :
  listdir (imagedir theargs) = Ok entries ->
  tile_files (imagedir theargs) entries = [] ->
  get_tiles (imagedir theargs) s = (Ok [], s) /\
  (forall r s', run_from_dir theargs s <> (Ok r, s')) /\
  (prefill theargs = false ->
   0 <= width theargs -> 0 <= height theargs ->
   fst (run_from_dir theargs s) = Raise (IndexError 216)).
Proof.
  intros Hl Hnone.
  assert (Hg : get_tiles (imagedir theargs) s = (Ok [], s)).
  { rewrite get_tiles_eq. unfold bind, lift. rewrite Hl.
    rewrite (get_tiles_loop _ _ _ [] _); [done |]. rewrite Hnone. constructor. }
  split; [exact Hg |]. unfold run_from_dir. rewrite (bind_eq _ _ _ _ _ Hg).
  split.
  - intros r s' Hr. unfold run in Hr.
    apply bind_Ok in Hr as ([img dl] & s0 & Hs & _).
    apply setup_inv in Hs as (t0 & cols & rows & Ht0 & _). discriminate.
  - intros Hpre HW HH. unfold run.
    erewrite bind_Raise; [reflexivity |]. unfold setup, canvas_setup.
    rewrite (bind_eq _ _ _ _ _ (logger_log_eq _ _ _ _)).
    unfold Image_new. cbn [fst snd].
    destruct (Z.ltb_spec (width theargs) 0) as [| _]; [lia |].
    destruct (Z.ltb_spec (height theargs) 0) as [| _]; [lia |].
    cbn [orb]. unfold bind at 1, alloc. rewrite Hpre. reflexivity.
Qed.


(** ** The run from its first line *)

Lemma ensure_outdir_log abs_outdir level m e (s : @State Image G) :
  snd (logger_log level m e (snd (ensure_outdir abs_outdir s)))
  = snd (ensure_outdir abs_outdir (snd (logger_log level m e s))).
Proof.
  unfold ensure_outdir, logger_log.
  destruct (isdir abs_outdir); cbn [negb]; [done |].
  cbn [fst snd heap rng loglevel log outfile dirs].
  by destruct (loglevel s <=? level).
Qed.

(** X4: a negative canvas width or height.  Once the tiles are read, the
    run hands the record of line 205 to the logger and sees to the output
    directory (lines 207 to 209); then it ends, with what [makedirs] raised
    or else with the [ValueError] of [Image.new] at line 211.  No image
    object is created, no random number drawn and no file written. *)
Theorem negative_canvas_size theargs tile_list (s : @State Image G) :
  get_tiles (imagedir theargs) s = (Ok tile_list, s) ->
  width theargs < 0 \/ height theargs < 0 ->
  exists s',
    run_script theargs s
      = (match fst (ensure_outdir (outdir theargs) s) with
         | Ok _ => Raise (ValueError 211)
         | Raise e => Raise e
         end, s') /\
    s' = snd (ensure_outdir (outdir theargs)
                (snd (logger_log INFO
                        ("Got " ++ pretty (length tile_list)
                           ++ " image tiles")%string None s))) /\
    heap s' = heap s /\ rng s' = rng s /\ outfile s' = outfile s.
Proof.
  intros Hg Hneg. eexists. split; [| split; [reflexivity |]].
  - rewrite (run_script_eq _ _ _ Hg).
    destruct (fst (ensure_outdir (outdir theargs) s)) as [[] | e]; [| done].
    rewrite (run_negative_canvas _ _ _ Hneg). by rewrite ensure_outdir_log.
  - destruct (ensure_outdir_keeps (outdir theargs)
                (snd (logger_log INFO
                        ("Got " ++ pretty (length tile_list)
                           ++ " image tiles")%string None s)))
      as (-> & -> & _ & _ & ->).
    unfold logger_log. cbn [snd]. by destruct (loglevel s <=? INFO).
Qed.

(** X3: a sufficient condition for the run to return 0.  The tile
    directory is read and gives a tile list with a first tile, all of whose
    tiles the brightness enhancer accepts; the output directory exists or
    can be created; the GIF writer returns on [numframes] frames of the
    canvas size at the frame duration asked for; the pitches [tw + colsep]
    and [th + rowsep] of the first tile are positive, the canvas is wider
    than 0 and higher than five row pitches, at least one frame is asked
    for, and the pre-fill steps are positive when the pre-fill is asked
    for.  Then no choice is made from an empty sequence, no index leaves
    its list and no call raises, whatever the generator draws and however
    many droppers there are. *)
Theorem sane_run_returns theargs tile_list tile0 (s : @State Image G) :
  get_tiles (imagedir theargs) s = (Ok tile_list, s) ->
  tile_list !! 0%nat = Some tile0 ->
  blendable tile_list ->
  isdir (outdir theargs) = true \/ fst (makedirs (outdir theargs)) = Ok tt ->
  (forall first rest,
     S (length rest) = Z.to_nat (numframes theargs) ->
     Forall (fun f => im_size f = (width theargs, height theargs))
       (first :: rest) ->
     fst (im_save first rest (duration theargs)) = Ok tt) ->
  0 < fst (im_size tile0) + colsep theargs ->
  0 < snd (im_size tile0) + rowsep theargs ->
  0 < width theargs ->
  5 * (snd (im_size tile0) + rowsep theargs) < height theargs ->
  0 < numframes theargs ->
  (prefill theargs = true ->
   0 < colsep theargs + 16 /\ 0 < rowsep theargs + 16) ->
  exists s', run_script theargs s = (Ok 0, s').
Proof.
  intros Hg Ht0 Hbl Hdir Hsave Hcw Hrw HW HH Hn Hpre.
  rewrite (run_script_eq _ _ _ Hg), ensure_outdir_result.
  assert ((if isdir (outdir theargs) then Ok tt
           else fst (makedirs (outdir theargs))) = Ok tt) as ->.
  { destruct Hdir as [-> | Hm]; [done |]. by destruct (isdir _). }
  destruct (run_reaches_writer theargs tile_list tile0
              (snd (ensure_outdir (outdir theargs) s))
              Ht0 Hbl Hcw Hrw HW HH Hn Hpre)
    as (first & rest & Hcount & Hsizes & Hr & _).
  rewrite (Hsave first rest Hcount Hsizes) in Hr.
  destruct (run theargs tile_list _) as [r s']. cbn [fst] in Hr. subst r.
  by exists s'.
Qed.





(** ** [main] and [run] in an output directory that exists *)

(** What [get_tiles] returns does not depend on the program state. *)
Lemma get_tiles_result imagedir (s s' : @State Image G) :
  fst (get_tiles imagedir s) = fst (get_tiles imagedir s').
Proof.
  assert (Hbody : forall e acc (s1 s2 : @State Image G),
            get_tiles_body imagedir e acc s1
            = (fst (get_tiles_body imagedir e acc s2), s1)).
  { intros e acc s1 s2. unfold get_tiles_body.
    destruct (negb _); [done |]. destruct (negb _); [done |].
    unfold bind, lift, ret. by destruct (tiles_of imagedir e). }
  rewrite !get_tiles_eq. unfold bind, lift.
  destruct (listdir imagedir) as [entries |]; [| done].
  generalize (@nil Image) as acc.
  induction entries as [| e es IH]; intros acc; [done |].
  cbn [for_acc]. unfold bind.
  rewrite (Hbody e acc s s'). pose proof (Hbody e acc s' s') as E.
  destruct (get_tiles_body imagedir e acc s') as [r st].
  cbn [fst] in *. injection E as ->.
  destruct r; [apply IH | done].
Qed.

Lemma get_tiles_any_state imagedir tile_list (s s' : @State Image G) :
  get_tiles imagedir s = (Ok tile_list, s) ->
  get_tiles imagedir s' = (Ok tile_list, s').
Proof.
  intros Hg. pose proof (get_tiles_result imagedir s s') as Hr.
  pose proof (get_tiles_state imagedir s') as Hs.
  rewrite Hg in Hr. cbn [fst] in Hr.
  destruct (get_tiles imagedir s') as [r s1]. cbn [fst snd] in *. by subst.
Qed.

(** With the tiles of the directory and an output directory that exists,
    [main] is [main_from_argv] after the parsing, as long as no [SystemExit]
    comes out of the [try] block. *)
Lemma main_from_argv_in_place program argv theargs tile_list
    (s : @State Image G) :
  _parse_arguments desc argv = Ok theargs ->
  get_tiles (imagedir theargs) s = (Ok tile_list, s) ->
  isdir (outdir theargs) = true ->
  match fst ((let* _ := _setup_logging theargs in run theargs tile_list) s) with
  | Raise (SystemExit _) => True
  | _ =>
      main_from_argv (program :: argv) s
      = (Ok (fst (main theargs tile_list s)), snd (main theargs tile_list s))
  end.
Proof.
  intros Hp Hg Hd.
  assert (Hblock : (let* _ := _setup_logging theargs in run_script theargs) s
                   = (let* _ := _setup_logging theargs in
                      run theargs tile_list) s).
  { apply bind_congr; [done |]. intros [] sl.
    rewrite (run_script_in_place _ _ Hd). unfold run_from_dir.
    by rewrite (bind_eq _ _ _ _ _ (get_tiles_any_state _ _ s sl Hg)). }
  assert (Hmain : main_from_argv (program :: argv) s =
            match (let* _ := _setup_logging theargs in run_script theargs) s with
            | (Ok status, s') => (Ok status, s')
            | (Raise (SystemExit code), s') => (Raise (SystemExit code), s')
            | (Raise e, s') =>
                (Ok 2, snd (logger_log ERROR "Caught exception" (Some e) s'))
            end).
  { unfold main_from_argv. unfold bind at 1, lift at 1. cbn [tail]. rewrite Hp.
    unfold bind at 1, index at 1. cbn [lookup list_lookup]. reflexivity. }
  rewrite Hmain, Hblock. unfold main.
  destruct ((let* _ := _setup_logging theargs in run theargs tile_list) s)
    as [[status | e] s1]; [done |].
  cbn [fst snd]. by destruct e.
Qed.

End Tiles.

(** * Further concrete runs *)

(** Command lines around [args_small]: a negative width, a column pitch of
    zero, a canvas not higher than five row pitches, no dropper, the
    pre-fill on a canvas of width 0, the pre-fill in an output directory
    that is yet to be created, a logging configuration file, and tile
    directories that cannot be read or hold no tile. *)
Definition args_negative_width : Args :=
  {| imagedir := "tiles"; outdir := "out"; duration := 400; numupdators := 2;
     prefill := false; numframes := 4; colsep := 1; rowsep := 1;
     width := -8; height := 24; logconf := None; verbose := 0 |}.

Definition args_zero_pitch : Args :=
  {| imagedir := "tiles"; outdir := "out"; duration := 400; numupdators := 2;
     prefill := false; numframes := 4; colsep := -2; rowsep := 1;
     width := 8; height := 24; logconf := None; verbose := 0 |}.

Definition args_short : Args :=
  {| imagedir := "tiles"; outdir := "out"; duration := 400; numupdators := 2;
     prefill := false; numframes := 4; colsep := 1; rowsep := 1;
     width := 8; height := 15; logconf := None; verbose := 0 |}.

Definition args_no_droppers : Args :=
  {| imagedir := "tiles"; outdir := "out"; duration := 400; numupdators := 0;
     prefill := false; numframes := 4; colsep := 1; rowsep := 1;
     width := 8; height := 24; logconf := None; verbose := 0 |}.

Definition args_empty_canvas : Args :=
  {| imagedir := "tiles"; outdir := "out"; duration := 400; numupdators := 2;
     prefill := true; numframes := 4; colsep := 1; rowsep := 1;
     width := 0; height := 24; logconf := None; verbose := 0 |}.

Definition args_new_outdir : Args :=
  {| imagedir := "tiles"; outdir := "new"; duration := 400; numupdators := 2;
     prefill := true; numframes := 4; colsep := 1; rowsep := 1;
     width := 8; height := 24; logconf := None; verbose := 0 |}.

Definition args_logconf : Args :=
  {| imagedir := "tiles"; outdir := "out"; duration := 400; numupdators := 2;
     prefill := false; numframes := 4; colsep := 1; rowsep := 1;
     width := 8; height := 24; logconf := Some "log.conf"; verbose := 0 |}.

Definition args_broken_dir : Args :=
  {| imagedir := "broken"; outdir := "out"; duration := 400; numupdators := 2;
     prefill := false; numframes := 4; colsep := 1; rowsep := 1;
     width := 8; height := 24; logconf := None; verbose := 0 |}.

Definition args_cut_dir : Args :=
  {| imagedir := "cut"; outdir := "out"; duration := 400; numupdators := 2;
     prefill := false; numframes := 4; colsep := 1; rowsep := 1;
     width := 8; height := 24; logconf := None; verbose := 0 |}.

Definition args_empty_dir : Args :=
  {| imagedir := "empty"; outdir := "out"; duration := 400; numupdators := 2;
     prefill := false; numframes := 4; colsep := 1; rowsep := 1;
     width := 8; height := 24; logconf := None; verbose := 0 |}.

(** Rotation of a raster by quarter turns, counterclockwise, about its
    centre: the pixel [(i, j)] of the result is the pixel [(w - 1 - j, i)],
    [(w - 1 - i, h - 1 - j)] or [(j, h - 1 - i)] of the source.  Exact on
    square rasters; other angles leave the raster as it is. *)
Definition raster_rotate (s : Raster) (angle : Z) : Raster :=
  let w := fst (r_size s) in
  let h := snd (r_size s) in
  let source (i j : Z) : Z * Z :=
    if angle =? 90 then (w - 1 - j, i)
    else if angle =? 180 then (w - 1 - i, h - 1 - j)
    else if angle =? 270 then (j, h - 1 - i)
    else (i, j) in
  mkRaster (r_size s)
    (imap (fun j row =>
       imap (fun i old =>
         let p := source (Z.of_nat i) (Z.of_nat j) in
         default old (raster_get s (fst p) (snd p)))
         row)
       (r_rows s))
    (r_palette s).

(** A raster all of whose rows are there, as its size announces them; the
    raster of a truncated file has fewer, and cannot be rotated. *)
Definition raster_complete (s : Raster) : bool :=
  (Z.of_nat (length (r_rows s)) =? snd (r_size s))
  && forallb (fun row => Z.of_nat (length row) =? fst (r_size s)) (r_rows s).

Definition raster_load_rotate (s : Raster) (angle : Z) : res Raster :=
  if raster_complete s then Ok (raster_rotate s angle)
  else Raise (OSError 166).

Lemma raster_load_rotate_size (im : Raster) (angle : Z) (im' : Raster) :
  raster_load_rotate im angle = Ok im' -> r_size im' = r_size im.
Proof.
  unfold raster_load_rotate. destruct (raster_complete im); [| discriminate].
  by intros [= <-].
Qed.

(** A 2 by 2 tile of which the file holds the first row only. *)
Definition cut_tile : Raster := mkRaster (2, 2) [[10; 10]%float] false.

(** Four directories: [tiles] holds two tile files, a text file and a
    directory named like a tile file; in [broken] the second tile file does
    not open; in [cut] it opens but is truncated; [empty] holds no tile
    file.  Any other path cannot be listed. *)
#[export] Instance small_dirs : TileFiles Raster := {|
  listdir := fun d =>
    if String.eqb d "tiles" then Ok ["a.png"; "notes.txt"; "old.png"; "b.png"]%string
    else if String.eqb d "broken" then Ok ["a.png"; "bad.png"; "b.png"]%string
    else if String.eqb d "cut" then Ok ["a.png"; "cut.png"; "b.png"]%string
    else if String.eqb d "empty" then Ok ["notes.txt"; "old.png"]%string
    else Raise (OSError 158);
  isfile := fun d entry => negb (String.eqb entry "old.png");
  Image_open := fun d entry =>
    if String.eqb entry "a.png" then Ok (flat_tile 2 2 10%float)
    else if String.eqb entry "b.png" then Ok (flat_tile 2 2 20%float)
    else if String.eqb entry "cut.png" then Ok cut_tile
    else Raise (OSError 164);
  im_rotate := raster_load_rotate;
  im_size_rotate := raster_load_rotate_size
|}.

(** The directory [out] exists, [new] can be created, [out.txt] is a file,
    and nothing else can be created. *)
#[export] Instance small_outdirs : OutputDir := {|
  isdir := fun d => String.eqb d "out";
  makedirs := fun d =>
    if String.eqb d "new" then (Ok tt, ["new"]%string)
    else if String.eqb d "out.txt" then (Raise (FileExistsError 209), [])
    else (Raise (OSError 209), [])
|}.

(** The parser on two command lines: the one of [args_small], and the same
    with a logging configuration file.  Every other command line is
    refused. *)
Definition argv_small : list string :=
  ["tiles"; "out"; "--numupdators"; "2"; "--numframes"; "4"; "--colsep"; "1";
   "--rowsep"; "1"; "--width"; "8"; "--height"; "24"]%string.

Definition argv_logconf : list string :=
  argv_small ++ ["--logconf"; "log.conf"]%string.

#[export] Instance small_parser : ArgParser := {|
  _parse_arguments := fun desc args =>
    if list_eqb String.eqb args argv_small then Ok args_small
    else if list_eqb String.eqb args argv_logconf then Ok args_logconf
    else Raise (SystemExit 2)
|}.

(** The tiles of the directory [tiles]. *)
Definition tiles_dir : list Raster :=
  [flat_tile 2 2 10; raster_rotate (flat_tile 2 2 10) 90;
   raster_rotate (flat_tile 2 2 10) 180; raster_rotate (flat_tile 2 2 10) 270;
   flat_tile 2 2 20; raster_rotate (flat_tile 2 2 20) 90;
   raster_rotate (flat_tile 2 2 20) 180; raster_rotate (flat_tile 2 2 20) 270]%float.

Lemma returned_run_wrote_all_frames_witness :
  exists r s' first rest,
    run args_small tiles2 s_init = (Ok r, s') /\
    r = 0 /\
    S (length rest) = Z.to_nat (numframes args_small) /\
    outfile s' = Some (snd (im_save first rest (duration args_small))).
Proof.
  destruct (run args_small tiles2 s_init) as [[r | e] s'] eqn:E;
    [| vm_compute in E; discriminate].
  destruct (returned_run_wrote_all_frames args_small tiles2 s_init r s' E)
    as (Hr & _ & _ & first & rest & Hn & _ & _ & Ho).
  exists r, s', first, rest. auto.
Defined.


Lemma sane_run_returns_witness :
  get_tiles (imagedir args_new_outdir) s_init = (Ok tiles_dir, s_init) /\
  isdir (outdir args_new_outdir) = false /\
  prefill args_new_outdir = true /\
  exists s', run_script args_new_outdir s_init = (Ok 0, s').
Proof.
  assert (Hg : get_tiles (imagedir args_new_outdir) s_init
               = (Ok tiles_dir, s_init)) by reflexivity.
  split; [exact Hg |]. split; [reflexivity |]. split; [reflexivity |].
  apply (sane_run_returns args_new_outdir tiles_dir (flat_tile 2 2 10%float)
           s_init Hg eq_refl).
  - repeat constructor.
  - right. reflexivity.
  - intros first rest _ _. reflexivity.
  - simpl; lia.
  - simpl; lia.
  - simpl; lia.
  - simpl; lia.
  - simpl; lia.
  - intros _. simpl; lia.
Defined.

Lemma negative_canvas_size_witness :
  get_tiles (imagedir args_negative_width) s_init = (Ok tiles_dir, s_init) /\
  width args_negative_width < 0 /\
  exists s',
    run_script args_negative_width s_init = (Raise (ValueError 211), s') /\
    heap s' = [] /\ outfile s' = None.
Proof.
  assert (Hg : get_tiles (imagedir args_negative_width) s_init
               = (Ok tiles_dir, s_init)) by reflexivity.
  assert (Hw : width args_negative_width < 0) by (simpl; lia).
  split; [exact Hg |]. split; [exact Hw |].
  destruct (negative_canvas_size args_negative_width tiles_dir s_init Hg
              (or_introl Hw)) as (s' & E & _ & Hh & _ & Ho).
  exists s'. split; [exact E |]. split; [exact Hh | exact Ho].
Defined.

Lemma zero_pitch_witness :
  fst (im_size (flat_tile 2 2 10%float)) + colsep args_zero_pitch = 0 /\
  fst (run args_zero_pitch tiles2 s_init) = Raise (ValueError 218).
Proof.
  split; [reflexivity |].
  apply (zero_pitch args_zero_pitch tiles2 (flat_tile 2 2 10%float) s_init
           eq_refl eq_refl ltac:(simpl; lia) ltac:(simpl; lia)).
  reflexivity.
Defined.

Lemma empty_grid_fails_witness :
  height args_short <= 5 * (snd (im_size (flat_tile 2 2 10%float)) + rowsep args_short) /\
  exists s', run args_short tiles2 s_init = (Raise (IndexError 125), s').
Proof.
  assert (Hh : height args_short
               <= 5 * (snd (im_size (flat_tile 2 2 10%float)) + rowsep args_short))
    by (simpl; lia).
  split; [exact Hh |].
  destruct (setup args_short tiles2 s_init) as [[[img d_list] | e] s0] eqn:Es;
    [| vm_compute in Es; discriminate].
  destruct (empty_grid_fails args_short tiles2 (flat_tile 2 2 10%float) s_init
              img d_list s0 Es eq_refl ltac:(simpl; lia) ltac:(simpl; lia)
              (or_intror Hh) ltac:(simpl; lia) ltac:(simpl; lia))
    as (s' & E & _).
  by exists s'.
Defined.

(** The four still frames of the run without droppers: the writer here
    merges them into one frame of four times the duration. *)
Lemma no_droppers_still_frames_witness :
  numupdators args_no_droppers <= 0 /\
  exists s',
    run args_no_droppers tiles2 s_init = (Ok 0, s') /\
    outfile s' = Some [(raster_new (8, 24), 1600)].
Proof.
  split; [simpl; lia |].
  destruct (setup args_no_droppers tiles2 s_init)
    as [[[img d_list] | e] s0] eqn:Es; [| vm_compute in Es; discriminate].
  destruct (no_droppers_still_frames args_no_droppers tiles2 s_init img d_list
              s0 Es ltac:(simpl; lia) ltac:(simpl; lia)) as (s' & E & Ho & _).
  exists s'. vm_compute in Es. injection Es as <- <- <-.
  split; [exact E | exact Ho].
Defined.

Lemma prefill_on_empty_canvas_witness :
  prefill args_empty_canvas = true /\ width args_empty_canvas = 0 /\
  exists s',
    run args_empty_canvas tiles2 s_init = (Raise (IndexError 185), s').
Proof.
  split; [reflexivity |]. split; [reflexivity |].
  destruct (prefill_on_empty_canvas args_empty_canvas tiles2 s_init eq_refl
              ltac:(simpl; lia) ltac:(simpl; lia) ltac:(simpl; lia)
              ltac:(simpl; lia) (or_introl eq_refl)) as (s' & E & _).
  by exists s'.
Defined.

Lemma located_on_anchor_column_witness :
  exists self' s' x y,
    drop_n 3 d_small s_small = (Ok self', s') /\
    reachable (G:=Z) self' /\
    _curloc self' = Some (x, y) /\
    x ∈ _thecols self'.
Proof.
  destruct (drop_n 3 d_small s_small) as [[self' | e] s'] eqn:E;
    [| vm_compute in E; discriminate].
  assert (Hr : reachable (G:=Z) self').
  { eapply reachable_drop_n; [| exact E]. apply reach_init. }
  destruct (_curloc self') as [[x y] |] eqn:Ec.
  - exists self', s', x, y. split; [reflexivity |]. split; [exact Hr |].
    split; [exact Ec |].
    exact (located_on_anchor_column (G:=Z) self' Hr x y Ec).
  - vm_compute in E. injection E as <- <-. vm_compute in Ec. discriminate.
Defined.

Lemma falling_dropper_witness :
  _curloc d_active = Some (3, 6) /\
  wf_dropper d_active /\
  blendable (_tile_list d_active) /\
  Forall (fun t => snd (im_size t) = 2) (_tile_list d_active) /\
  exists self' s',
    drop_n 4 d_active s_small = (Ok self', s') /\
    _curloc self' = Some (3, 6 + Z.of_nat 4 * (2 + _rowsep d_active)) /\
    length (deque.items (_prev_tiles self')) = 4%nat.
Proof.
  assert (Hwf : wf_dropper d_active) by apply wf_dropper_init.
  assert (Hbl : blendable (_tile_list d_active)) by (repeat constructor).
  assert (Hh : Forall (fun t : Raster => snd (im_size t) = 2)
                 (_tile_list d_active)) by (repeat constructor).
  split; [reflexivity |]. split; [exact Hwf |]. split; [exact Hbl |].
  split; [exact Hh |].
  destruct (falling_dropper d_active 3 6 2 4 s_small eq_refl Hwf
              ltac:(discriminate) Hbl ltac:(constructor) Hh ltac:(simpl; lia)
              ltac:(vm_compute; discriminate))
    as (self' & s' & E & Hc & Hl & _).
  exists self', s'. auto.
Defined.

Lemma tiles_of_directory_witness :
  listdir "tiles" = Ok ["a.png"; "notes.txt"; "old.png"; "b.png"]%string /\
  tile_files "tiles" ["a.png"; "notes.txt"; "old.png"; "b.png"]%string
    = ["a.png"; "b.png"]%string /\
  get_tiles (G:=Z) "tiles" s_init = (Ok tiles_dir, s_init).
Proof.
  split; [reflexivity |]. split; [reflexivity |].
  assert (Hims : Forall2 (fun entry im => Image_open "tiles" entry = Ok im)
                   (tile_files "tiles"
                      ["a.png"; "notes.txt"; "old.png"; "b.png"]%string)
                   [flat_tile 2 2 10%float; flat_tile 2 2 20%float])
    by (repeat constructor).
  assert (Hvar : Forall2 (fun im ts => variants im = Ok ts)
                   [flat_tile 2 2 10%float; flat_tile 2 2 20%float]
                   [firstn 4 tiles_dir; skipn 4 tiles_dir])
    by (repeat constructor).
  assert (Hl : listdir "tiles"
               = Ok ["a.png"; "notes.txt"; "old.png"; "b.png"]%string)
    by reflexivity.
  destruct (tiles_of_directory (G:=Z) "tiles" _ _ _ s_init Hl Hims Hvar)
    as (E & _).
  exact E.
Defined.

(** A tile file that does not open, and one that opens but is truncated:
    the rotation of line 166 is the first to read its pixels. *)
Lemma unreadable_tiles_witness :
  Image_open "broken" "bad.png" = Raise (OSError 164) /\
  run_script args_broken_dir s_init = (Raise (OSError 164), s_init) /\
  Image_open "cut" "cut.png" = Ok cut_tile /\
  run_script args_cut_dir s_init = (Raise (OSError 166), s_init).
Proof.
  split; [reflexivity |]. split; [| split; [reflexivity |]].
  - apply (unreadable_tiles args_broken_dir (OSError 164) s_init).
    right. exists ["a.png"]%string, "bad.png"%string, ["b.png"]%string,
      [firstn 4 tiles_dir].
    split; [reflexivity |]. split; [repeat constructor |].
    split; [reflexivity |]. split; reflexivity.
  - apply (unreadable_tiles args_cut_dir (OSError 166) s_init).
    right. exists ["a.png"]%string, "cut.png"%string, ["b.png"]%string,
      [firstn 4 tiles_dir].
    split; [reflexivity |]. split; [repeat constructor |].
    split; [reflexivity |]. split; reflexivity.
Defined.

Lemma directory_without_tiles_witness :
  listdir "empty" = Ok ["notes.txt"; "old.png"]%string /\
  get_tiles (G:=Z) "empty" s_init = (Ok [], s_init) /\
  fst (run_from_dir args_empty_dir s_init) = Raise (IndexError 216).
Proof.
  split; [reflexivity |].
  assert (Hl : listdir (imagedir args_empty_dir)
               = Ok ["notes.txt"; "old.png"]%string) by reflexivity.
  assert (Hn : tile_files (imagedir args_empty_dir)
                 ["notes.txt"; "old.png"]%string = []) by reflexivity.
  destruct (directory_without_tiles (G:=Z) args_empty_dir _ s_init Hl Hn)
    as (Hg & _ & Hr).
  split; [exact Hg |].
  apply Hr; [reflexivity | simpl; lia | simpl; lia].
Defined.

(** [main] on three command lines: the one of [args_small] returns 0 with
    [out.gif] written; the same with [--logconf] returns 2 and leaves the
    [AttributeError] of line 91 in the log; one without arguments is refused
    by the parser. *)
Lemma main_from_argv_runs :
  (fst (main_from_argv ("gen_patrix.py" :: argv_small)%string s_init) = Ok 0 /\
   outfile (snd (main_from_argv ("gen_patrix.py" :: argv_small)%string s_init))
     <> None) /\
  (fst (main_from_argv ("gen_patrix.py" :: argv_logconf)%string s_init)
     = Ok 2 /\
   log (snd (main_from_argv ("gen_patrix.py" :: argv_logconf)%string s_init))
     = [mkLogRecord ERROR "Caught exception" (Some (AttributeError 91))] /\
   outfile (snd (main_from_argv ("gen_patrix.py" :: argv_logconf)%string s_init))
     = None) /\
  main_from_argv ["gen_patrix.py"]%string s_init = (Raise (SystemExit 2), s_init).
Proof.
  split; [| split].
  - destruct (main_from_argv _ s_init) as [r s'] eqn:E.
    vm_compute in E. injection E as <- <-. split; [reflexivity | discriminate].
  - vm_compute. repeat split.
  - reflexivity.
Qed.
